(** * Pong on uC/OS-III (app.c): terminal renderer and ball task

    A shallow embedding of the VT100 renderer ([UART_PrintNum],
    [Screen_MoveCursor], [Screen_WriteChar], [Screen_WriteNumber]) and of
    the ball task ([App_TaskBall], [Ball_Up] ... [Ball_Right]) of
    [Pong_uCOS-III/app.c], followed by the properties of the design
    document that concern them.

    Conventions.
    - A C [int] is a [Z] in the range of a 32-bit two's complement word;
      the conversions the C expressions perform ([int] to [unsigned], the
      wrap of an unsigned sum, the store of a sum into an [int]) are
      written out.
    - Every call the code makes to the serial driver or to the kernel is
      recorded as an [event]; a function's effect is the list of events
      it performs, in program order. *)

From Stdlib Require Import ZArith List Bool Lia.
Import ListNotations.
Local Open Scope Z_scope.

(* ================================================================= *)
(** ** Machine integers *)

Module CInt.

Definition modulus : Z := 2 ^ 32.
Definition INT_MAX : Z := 2 ^ 31 - 1.
Definition INT_MIN : Z := - 2 ^ 31.

Definition in_range (i : Z) : Prop := INT_MIN <= i <= INT_MAX.

(** [int] to [unsigned int]: reduction modulo 2^32. *)
Definition to_unsigned (i : Z) : Z := i mod modulus.

(** A 32-bit pattern read back as an [int]. *)
Definition to_signed (u : Z) : Z :=
  let r := u mod modulus in
  if r <? 2 ^ 31 then r else r - modulus.

(** [a / b] and [a + b] at type [unsigned int]. *)
Definition udiv (a b : Z) : Z := a / b.
Definition umod (a b : Z) : Z := a mod b.
Definition uadd (a b : Z) : Z := (a + b) mod modulus.

(** [a + b] at type [int], as the MIPS [addu] the compiler emits for it
    computes it (the C standard leaves the overflowing case open). *)
Definition add (a b : Z) : Z := to_signed (a + b).

(** [a % b] at type [int]: the remainder has the sign of [a]. *)
Definition srem (a b : Z) : Z := Z.rem a b.

End CInt.

(* ================================================================= *)
(** ** Events: the serial driver and the kernel *)

(** Modelled from the spec: [putU1] (uart1.c), [OSSchedLock],
    [OSSchedUnlock] and [OSTimeDlyHMSM] (uC/OS-III kernel) are not part of
    app.c.  The Transport "sends one byte at a time": [putU1 v] transmits
    the low eight bits of [v].  A kernel call is recorded as the event of
    its name; what the lock means for several tasks is given further down
    ([Sched]). *)
Inductive event : Type :=
| EvSchedLock
| EvPut (b : Z)
| EvSchedUnlock
| EvTimeDly (ms : Z).

Definition trace := list event.

Definition putU1 (v : Z) : trace := [EvPut (v mod 256)].
Definition OSSchedLock : trace := [EvSchedLock].
Definition OSSchedUnlock : trace := [EvSchedUnlock].
Definition OSTimeDlyHMSM (h m s ms : Z) : trace :=
  [EvTimeDly (((h * 60 + m) * 60 + s) * 1000 + ms)].

(** The bytes a trace sends to the terminal, in order. *)
Fixpoint bytes_of (t : trace) : list Z :=
  match t with
  | [] => []
  | EvPut b :: t' => b :: bytes_of t'
  | _ :: t' => bytes_of t'
  end.

(** Character constants used by the code. *)
Definition ESC : Z := 27.          (* 0x1B *)
Definition ch_0 : Z := 48.         (* '0' *)
Definition ch_semi : Z := 59.      (* ';' *)
Definition ch_lbracket : Z := 91.  (* '[' *)
Definition ch_H : Z := 72.         (* 'H' *)
Definition ch_star : Z := 42.      (* '*' *)
Definition ch_space : Z := 32.     (* ' ' *)

(* ================================================================= *)
(** ** Screen constants *)

Definition SCREEN_X_START : Z := 1.
Definition SCREEN_X_END : Z := 80.
Definition SCREEN_Y_START : Z := 1.
Definition SCREEN_Y_END : Z := 25.

Definition BALL_X_START : Z := (SCREEN_X_END - SCREEN_X_START) / 2.
Definition BALL_Y_START : Z := (SCREEN_Y_END - SCREEN_Y_START) / 2.

(* ================================================================= *)
(** ** The renderer *)

(** [void UART_PrintNum(int i)]:
    [putU1(i / 10u + '0'); putU1(i % 10u + '0');]
    The operand [10u] makes both operations unsigned. *)
Definition UART_PrintNum (i : Z) : trace :=
  putU1 (CInt.uadd (CInt.udiv (CInt.to_unsigned i) 10) ch_0) ++
  putU1 (CInt.uadd (CInt.umod (CInt.to_unsigned i) 10) ch_0).

(** [void UART_PrintNum3(int i)]:
    [putU1(i / 100u + '0'); putU1((i % 100) / 10u + '0');
     putU1(((i % 100) % 10) + '0');] *)
Definition UART_PrintNum3 (i : Z) : trace :=
  putU1 (CInt.uadd (CInt.udiv (CInt.to_unsigned i) 100) ch_0) ++
  putU1 (CInt.uadd (CInt.udiv (CInt.to_unsigned (CInt.srem i 100)) 10) ch_0) ++
  putU1 (CInt.add (CInt.srem (CInt.srem i 100) 10) ch_0).

(** [void Screen_MoveCursor(int Xpos, int Ypos)] *)
Definition Screen_MoveCursor (Xpos Ypos : Z) : trace :=
  putU1 ESC ++
  putU1 ch_lbracket ++
  UART_PrintNum Ypos ++
  putU1 ch_semi ++
  UART_PrintNum Xpos ++
  putU1 ch_H.

(** The guard of both writers:
    [(x > SCREEN_X_END) || (x < SCREEN_X_START) ||
     (y > SCREEN_Y_END) || (y < SCREEN_Y_START)]. *)
Definition off_screen (x y : Z) : bool :=
  (x >? SCREEN_X_END) || (x <? SCREEN_X_START) ||
  (y >? SCREEN_Y_END) || (y <? SCREEN_Y_START).

(** How control leaves a function declared to return [int]: through a
    [return e] statement, or by reaching the closing brace, in which case
    the call has no value. *)
Inductive outcome : Type :=
| Return (v : Z)
| FallOffEnd.

(** [int Screen_WriteChar(int x, int y, char c)] *)
Definition Screen_WriteChar (x y c : Z) : outcome * trace :=
  if off_screen x y then (Return 1, [])
  else (FallOffEnd,
        OSSchedLock ++ Screen_MoveCursor x y ++ putU1 c ++ OSSchedUnlock).

(** [int Screen_WriteNumber(int x, int y, int number)] *)
Definition Screen_WriteNumber (x y number : Z) : outcome * trace :=
  if off_screen x y then (Return 1, [])
  else (FallOffEnd,
        OSSchedLock ++ Screen_MoveCursor x y ++ UART_PrintNum number ++
        OSSchedUnlock).

(** The value a caller may read from a call: the returned one, or, when
    the callee fell off its end, whatever the result register holds. *)
Definition may_observe (o : outcome) (v : Z) : Prop :=
  match o with
  | Return r => v = r
  | FallOffEnd => CInt.in_range v
  end.

(** The printable region of the design document. *)
Definition X_MIN : Z := SCREEN_X_START.
Definition X_MAX : Z := SCREEN_X_END.
Definition Y_MIN : Z := SCREEN_Y_START.
Definition Y_MAX : Z := SCREEN_Y_END.

Definition on_screen (col row : Z) : Prop :=
  X_MIN <= col <= X_MAX /\ Y_MIN <= row <= Y_MAX.

(** Two zero-padded decimal digits, as the design document words the
    field of the cursor-move sequence. *)
Definition two_digits (n : Z) : list Z := [ch_0 + n / 10; ch_0 + n mod 10].

Definition is_digit (b : Z) : Prop := ch_0 <= b <= ch_0 + 9.

(* ================================================================= *)
(** ** Switches *)

(** Modelled from the spec: the macros [BTN1] ... [BTN4] (bsp.h) are not
    part of app.c; each "reads the instantaneous level" of one digital
    input.  A sample holds the four values the macros evaluate to during
    one pass of the ball loop. *)
Record switches : Type := mkSwitches {
  BTN1 : Z;
  BTN2 : Z;
  BTN3 : Z;
  BTN4 : Z
}.

Definition RIGHT_UP_SW : switches -> Z := BTN1.
Definition RIGHT_DOWN_SW : switches -> Z := BTN2.
Definition LEFT_UP_SW : switches -> Z := BTN3.
Definition LEFT_DOWN_SW : switches -> Z := BTN4.

(** The truth value C gives a controlling expression. *)
Definition c_true (v : Z) : bool := negb (v =? 0).

(** A digital input is asserted when its level is non-zero. *)
Definition asserted (level : Z) : Prop := level <> 0.

Definition Ball_Up (sw : switches) : Z :=
  if c_true (RIGHT_UP_SW sw) then 1 else 0.

Definition Ball_Down (sw : switches) : Z :=
  if c_true (RIGHT_DOWN_SW sw) then 1 else 0.

Definition Ball_Left (sw : switches) : Z :=
  if c_true (LEFT_UP_SW sw) then 1 else 0.

Definition Ball_Right (sw : switches) : Z :=
  if c_true (LEFT_DOWN_SW sw) then 1 else 0.

(* ================================================================= *)
(** ** The ball task *)

(** The variables of [App_TaskBall]: the locals [x], [y] and the globals
    [x_delta], [y_delta], which no other function writes. *)
Record ball : Type := mkBall {
  x : Z;
  y : Z;
  x_delta : Z;
  y_delta : Z
}.

Definition set_delta (b : ball) (dx dy : Z) : ball :=
  {| x := x b; y := y b; x_delta := dx; y_delta := dy |}.

(** The [if (Ball_Up()) ... else if (Ball_Down()) ... else if
    (Ball_Right()) ... else if (Ball_Left()) ...] chain. *)
Definition steer (sw : switches) (b : ball) : ball :=
  if c_true (Ball_Up sw) then set_delta b 0 1
  else if c_true (Ball_Down sw) then set_delta b 0 (-1)
  else if c_true (Ball_Right sw) then set_delta b (-1) 0
  else if c_true (Ball_Left sw) then set_delta b 1 0
  else b.

(** [x += x_delta; y += y_delta;] *)
Definition advance (b : ball) : ball :=
  {| x := CInt.add (x b) (x_delta b);
     y := CInt.add (y b) (y_delta b);
     x_delta := x_delta b;
     y_delta := y_delta b |}.

(** The statements before the loop. *)
Definition App_TaskBall_init : ball * trace :=
  let b := {| x := BALL_X_START; y := BALL_Y_START;
              x_delta := 1; y_delta := 0 |} in
  (b, snd (Screen_WriteChar (x b) (y b) ch_star)).

Definition ball0 : ball := fst App_TaskBall_init.

(** One pass of the [while (DEF_TRUE)] body. *)
Definition App_TaskBall_body (sw : switches) (b : ball) : ball * trace :=
  let t_delay := OSTimeDlyHMSM 0 0 0 75 in
  let t_erase := snd (Screen_WriteChar (x b) (y b) ch_space) in
  let b1 := advance (steer sw b) in
  let t_draw := snd (Screen_WriteChar (x b1) (y b1) ch_star) in
  (b1, t_delay ++ t_erase ++ t_draw).

Definition tick (sw : switches) (b : ball) : ball :=
  fst (App_TaskBall_body sw b).

(** The loop never ends; its behaviour is given on every finite sequence
    of switch samples, one per pass. *)
Fixpoint App_TaskBall_loop (inputs : list switches) (b : ball)
  : ball * trace :=
  match inputs with
  | [] => (b, [])
  | sw :: rest =>
      let '(b1, t1) := App_TaskBall_body sw b in
      let '(b2, t2) := App_TaskBall_loop rest b1 in
      (b2, t1 ++ t2)
  end.

Definition App_TaskBall (inputs : list switches) : ball * trace :=
  let '(b0, t0) := App_TaskBall_init in
  let '(b1, t1) := App_TaskBall_loop inputs b0 in
  (b1, t0 ++ t1).

(** The state of the ball after each pass. *)
Fixpoint ball_states (inputs : list switches) (b : ball) : list ball :=
  match inputs with
  | [] => []
  | sw :: rest => let b1 := tick sw b in b1 :: ball_states rest b1
  end.

Definition velocity (b : ball) : Z * Z := (x_delta b, y_delta b).
Definition position (b : ball) : Z * Z := (x b, y b).

Definition axis_aligned (v : Z * Z) : Prop :=
  v = (1, 0) \/ v = (-1, 0) \/ v = (0, 1) \/ v = (0, -1).

(** A sample with no switch asserted. *)
Definition released : switches := mkSwitches 0 0 0 0.

(* ================================================================= *)
(** ** The transition table of the design document (section 4.4) *)

Module Table.

Inductive direction : Type :=
| MovingUp
| MovingDown
| MovingLeft
| MovingRight.

Definition velocity_of (d : direction) : Z * Z :=
  match d with
  | MovingUp => (0, 1)
  | MovingDown => (0, -1)
  | MovingLeft => (-1, 0)
  | MovingRight => (1, 0)
  end.

(** The four logical inputs of one tick, in the order the table
    consults them. *)
Record pattern : Type := mkPattern {
  up : bool;
  down : bool;
  left_mapped : bool;
  right_mapped : bool
}.

Definition transition (d : direction) (i : pattern) : direction :=
  if up i then MovingUp
  else if down i then MovingDown
  else if left_mapped i then MovingLeft
  else if right_mapped i then MovingRight
  else d.

Definition move (p v : Z * Z) : Z * Z := (fst p + fst v, snd p + snd v).

(** Replay of the table: the state and position after each tick. *)
Fixpoint replay (ps : list pattern) (d : direction) (p : Z * Z)
  : list (direction * (Z * Z)) :=
  match ps with
  | [] => []
  | i :: rest =>
      let d1 := transition d i in
      let p1 := move p (velocity_of d1) in
      (d1, p1) :: replay rest d1 p1
  end.

Definition initial : direction := MovingRight.

End Table.

(** How the switches of the board feed the table: the first two inputs
    are the right paddle's buttons, the two horizontal ones the left
    paddle's. *)
Definition pattern_of (sw : switches) : Table.pattern :=
  {| Table.up := c_true (RIGHT_UP_SW sw);
     Table.down := c_true (RIGHT_DOWN_SW sw);
     Table.left_mapped := c_true (LEFT_DOWN_SW sw);
     Table.right_mapped := c_true (LEFT_UP_SW sw) |}.

(* ================================================================= *)
(** ** Lock sections of a trace *)

(** The bytes sent during each completed hold of the scheduler lock, one
    list per [OSSchedLock] ... [OSSchedUnlock] pair, in order.  [cur] is
    the hold in progress, if any, with the bytes it has sent so far. *)
Fixpoint sections_from (cur : option (list Z)) (t : trace)
  : list (list Z) :=
  match t with
  | [] => []
  | EvSchedLock :: t' => sections_from (Some []) t'
  | EvPut b :: t' =>
      match cur with
      | Some bs => sections_from (Some (bs ++ [b])) t'
      | None => sections_from None t'
      end
  | EvSchedUnlock :: t' =>
      match cur with
      | Some bs => bs :: sections_from None t'
      | None => sections_from None t'
      end
  | EvTimeDly _ :: t' => sections_from cur t'
  end.

Definition sections (t : trace) : list (list Z) := sections_from None t.

(** Every byte of the trace is sent while the lock is held. *)
Fixpoint puts_locked (held : bool) (t : trace) : bool :=
  match t with
  | [] => true
  | EvSchedLock :: t' => puts_locked true t'
  | EvSchedUnlock :: t' => puts_locked false t'
  | EvPut _ :: t' => held && puts_locked held t'
  | EvTimeDly _ :: t' => puts_locked held t'
  end.

(** The lock held at the end of a trace that starts with it [held]. *)
Fixpoint held_after (held : bool) (t : trace) : bool :=
  match t with
  | [] => held
  | EvSchedLock :: t' => held_after true t'
  | EvSchedUnlock :: t' => held_after false t'
  | _ :: t' => held_after held t'
  end.

(** A program that touches the terminal only inside lock sections: a
    sequence of sections and delays. *)
Inductive lock_user : trace -> Prop :=
| lu_done : lock_user []
| lu_section bs p :
    lock_user p ->
    lock_user (EvSchedLock :: map EvPut bs ++ EvSchedUnlock :: p)
| lu_delay ms p :
    lock_user p ->
    lock_user (EvTimeDly ms :: p).

(* ================================================================= *)
(** ** Several tasks under one lock *)

(** Modelled from the spec: the kernel behind [OSSchedLock] and
    [OSSchedUnlock] is not part of app.c.  Section 4.2 and section 5 give
    the RenderLock contract: "exactly one task may hold it at a time",
    [acquire] "blocks the calling unit of execution until exclusive
    ownership is obtained", re-entrant acquisition is not supported, and
    the scheduler is preemptive, so that a task may be switched out
    between any two of its events. *)
Module Sched.

Definition tid : Type := nat.

(** Who holds the lock, and what each task has left to execute. *)
Record config : Type := mkConfig {
  holder : option tid;
  progs : list trace
}.

Fixpoint update {A : Type} (i : nat) (v : A) (l : list A) : list A :=
  match l, i with
  | [], _ => []
  | _ :: l', O => v :: l'
  | a :: l', S i' => a :: update i' v l'
  end.

(** Let task [i] execute its next event.  [None]: the task has finished,
    does not exist, waits for the lock, or releases a lock it does not
    hold. *)
Definition dispatch (c : config) (i : tid) : option (config * event) :=
  match nth_error (progs c) i with
  | Some (e :: rest) =>
      let ps := update i rest (progs c) in
      match e with
      | EvSchedLock =>
          match holder c with
          | None => Some (mkConfig (Some i) ps, e)
          | Some _ => None
          end
      | EvSchedUnlock =>
          match holder c with
          | Some j => if Nat.eqb i j then Some (mkConfig None ps, e)
                      else None
          | None => None
          end
      | _ => Some (mkConfig (holder c) ps, e)
      end
  | _ => None
  end.

(** Run a schedule: the tasks the scheduler dispatches, one event each.
    The result is the final configuration and the events in the order
    they happened, each with the task that performed it. *)
Fixpoint run (c : config) (sch : list tid)
  : option (config * list (tid * event)) :=
  match sch with
  | [] => Some (c, [])
  | i :: sch' =>
      match dispatch c i with
      | None => None
      | Some (c1, e) =>
          match run c1 sch' with
          | None => None
          | Some (c2, tr) => Some (c2, (i, e) :: tr)
          end
      end
  end.

Definition start (ps : list trace) : config := mkConfig None ps.

(** The byte stream the terminal receives, each byte with its sender. *)
Fixpoint stream (tr : list (tid * event)) : list (tid * Z) :=
  match tr with
  | [] => []
  | (i, EvPut b) :: tr' => (i, b) :: stream tr'
  | _ :: tr' => stream tr'
  end.

(** A block: the bytes of one whole lock section, with its task. *)
Definition block : Type := (tid * list Z)%type.

Definition emit (bl : block) : list (tid * Z) :=
  map (pair (fst bl)) (snd bl).

Definition emit_all (bls : list block) : list (tid * Z) :=
  flat_map emit bls.

Definition blocks_of (k : tid) (bls : list block) : list (list Z) :=
  map snd (filter (fun bl => Nat.eqb (fst bl) k) bls).

(** The bytes of the section in progress at the end of a run. *)
Definition pending (h : option tid) (sent : list Z) : list (tid * Z) :=
  match h with
  | None => []
  | Some i => map (pair i) sent
  end.

Definition prefix {A : Type} (l1 l2 : list A) : Prop :=
  exists more, l2 = l1 ++ more.

(** What is left of task [k], whose program was [p0], once the whole
    sections [bls] have been sent and, if [k] holds the lock, the bytes
    [sent] of its current section: the rest [p] of the program starts
    inside that section, or at the boundary of one. *)
Definition task_ok (h : option tid) (bls : list block) (sent : list Z)
  (k : tid) (p0 p : trace) : Prop :=
  if match h with Some i => Nat.eqb i k | None => false end
  then exists todo q,
         p = map EvPut todo ++ EvSchedUnlock :: q
         /\ lock_user q
         /\ sections p0 = blocks_of k bls ++ (sent ++ todo) :: sections q
  else lock_user p /\ sections p0 = blocks_of k bls ++ sections p.

(** The invariant of a run that started from the programs [ps0]. *)
Definition run_inv (ps0 : list trace) (c : config)
  (tr : list (tid * event)) (bls : list block) (sent : list Z) : Prop :=
  stream tr = emit_all bls ++ pending (holder c) sent
  /\ length (progs c) = length ps0
  /\ (forall i, holder c = Some i -> (i < length ps0)%nat)
  /\ Forall (fun bl => (fst bl < length ps0)%nat) bls
  /\ forall k p0, nth_error ps0 k = Some p0 ->
       exists p, nth_error (progs c) k = Some p
                 /\ task_ok (holder c) bls sent k p0 p.

End Sched.

(* ================================================================= *)
(** ** Properties fixed by the claims about locking *)

(** All the bytes of the trace are sent within one hold of the lock. *)
Definition one_acquisition (t : trace) : Prop :=
  puts_locked false t = true /\ exists bs, sections t = [bs].

(** The coasting ball: [n] passes of the loop with every switch
    released. *)
Definition coast (n : nat) (b : ball) : ball :=
  fst (App_TaskBall_loop (repeat released n) b).

(* ================================================================= *)
(** ** An example system: the ball task and a score writer *)

Definition demo_tasks : list trace :=
  [snd (App_TaskBall [released]); snd (Screen_WriteNumber 3 3 7)].

Definition demo_schedule : list Sched.tid :=
  repeat 0%nat 11 ++ repeat 1%nat 3 ++ [0%nat] ++ repeat 1%nat 9 ++
  repeat 0%nat 22.

Definition demo_schedule_between : list Sched.tid :=
  repeat 0%nat 23 ++ repeat 1%nat 12 ++ repeat 0%nat 11.

(* ================================================================= *)
(** ** The remaining renderer functions and the statistics display *)

Definition ch_c : Z := 99.         (* 'c' *)
Definition ch_quest : Z := 63.     (* '?' *)
Definition ch_2 : Z := 50.         (* '2' *)
Definition ch_5 : Z := 53.         (* '5' *)
Definition ch_l : Z := 108.        (* 'l' *)
Definition ch_h : Z := 104.        (* 'h' *)

(** [void Screen_Clear(void)] *)
Definition Screen_Clear : trace :=
  putU1 ESC ++ putU1 ch_c.

(** [void Screen_OffCursor(void)] *)
Definition Screen_OffCursor : trace :=
  putU1 ESC ++ putU1 ch_lbracket ++ putU1 ch_quest ++ putU1 ch_2 ++
  putU1 ch_5 ++ putU1 ch_l.

(** [void Screen_OnCursor(void)] *)
Definition Screen_OnCursor : trace :=
  putU1 ESC ++ putU1 ch_lbracket ++ putU1 ch_quest ++ putU1 ch_2 ++
  putU1 ch_5 ++ putU1 ch_h.

(** [void Screen_Init(void)] *)
Definition Screen_Init : trace :=
  Screen_OffCursor ++ Screen_Clear ++ Screen_OffCursor.

(** The statistics display of [App_TaskStart] (the block compiled when
    [OS_CFG_STAT_TASK_EN > 0]), for the four values it reads from the
    kernel, each converted to the [int] parameter of the print
    function. *)
Definition App_TaskStart_stats
  (OSStatTaskCPUUsage OSTaskQty StkFree StkUsed : Z) : trace :=
  OSSchedLock ++
  Screen_MoveCursor 40 2 ++
  UART_PrintNum OSStatTaskCPUUsage ++
  Screen_MoveCursor 40 3 ++
  UART_PrintNum OSTaskQty ++
  Screen_MoveCursor 40 4 ++
  UART_PrintNum3 StkFree ++
  Screen_MoveCursor 40 5 ++
  UART_PrintNum3 StkUsed ++
  OSSchedUnlock.

(* ================================================================= *)
(** ** What the ball task puts on the terminal *)

(** The lock section of one [Screen_WriteChar] call: none off the
    screen. *)
Definition write_section (col row c : Z) : list (list Z) :=
  if off_screen col row then []
  else [bytes_of (Screen_MoveCursor col row) ++ [c mod 256]].

(** The sections of the passes that lead through the states [states],
    the ball having been drawn last at [prev]: each pass blanks the
    previous position and draws a star at the new one. *)
Fixpoint frames (prev : Z * Z) (states : list ball) : list (list Z) :=
  match states with
  | [] => []
  | s :: rest =>
      write_section (fst prev) (snd prev) ch_space ++
      write_section (x s) (y s) ch_star ++
      frames (position s) rest
  end.

(** The ball after the passes of [inputs]. *)
Definition ball_after (inputs : list switches) (b : ball) : ball :=
  fst (App_TaskBall_loop inputs b).

(** Three decimal digits, zero-padded. *)
Definition three_digits (n : Z) : list Z :=
  [ch_0 + n / 100; ch_0 + (n mod 100) / 10; ch_0 + n mod 10].

(* ================================================================= *)
(** ** The cursor-move sequence of the design document *)

(** Section 6: "Cursor move to (col, row): ESC [ <row as 2 decimal
    digits> ; <col as 2 decimal digits> H". *)
Definition cursor_sequence (col row : Z) : list Z :=
  [ESC; ch_lbracket] ++ two_digits row ++ [ch_semi] ++ two_digits col ++
  [ch_H].

(* ################################################################# *)
(** * Facts about machine integers *)

Lemma bytes_of_app t1 t2 : bytes_of (t1 ++ t2) = bytes_of t1 ++ bytes_of t2.
Proof.
  induction t1 as [| e t1 IH]; simpl; [reflexivity |].
  destruct e; simpl; rewrite ?IH; reflexivity.
Qed.

Lemma to_unsigned_id i :
  0 <= i <= CInt.INT_MAX -> CInt.to_unsigned i = i.
Proof.
  unfold CInt.to_unsigned, CInt.modulus, CInt.INT_MAX; intros H.
  apply Z.mod_small; lia.
Qed.

Lemma add_in_range a b :
  CInt.in_range (a + b) -> CInt.add a b = a + b.
Proof.
  unfold CInt.in_range, CInt.add, CInt.to_signed, CInt.modulus,
    CInt.INT_MIN, CInt.INT_MAX; intros H.
  destruct (Z_lt_le_dec (a + b) 0) as [Hneg | Hpos].
  - replace ((a + b) mod 2 ^ 32) with (a + b + 2 ^ 32).
    + destruct (Z.ltb_spec (a + b + 2 ^ 32) (2 ^ 31)); lia.
    + apply Z.mod_unique with (q := -1); lia.
  - rewrite Z.mod_small by lia.
    destruct (Z.ltb_spec (a + b) (2 ^ 31)); lia.
Qed.

(* ################################################################# *)
(** * The renderer *)

(** The two bytes [UART_PrintNum] sends for a non-negative [int]. *)
Lemma UART_PrintNum_nonneg i :
  0 <= i <= CInt.INT_MAX ->
  UART_PrintNum i = [EvPut ((ch_0 + i / 10) mod 256); EvPut (ch_0 + i mod 10)].
Proof.
  intros H. unfold UART_PrintNum, putU1.
  rewrite (to_unsigned_id i H).
  unfold CInt.uadd, CInt.udiv, CInt.umod, CInt.modulus, ch_0.
  unfold CInt.INT_MAX in H.
  assert (H1 : 0 <= i / 10 < 2 ^ 31) by (Z.div_mod_to_equations; lia).
  assert (H2 : 0 <= i mod 10 < 10) by (apply Z.mod_pos_bound; lia).
  rewrite (Z.mod_small (i / 10 + 48)) by lia.
  rewrite (Z.mod_small (i mod 10 + 48) (2 ^ 32)) by lia.
  rewrite (Z.mod_small (i mod 10 + 48) 256) by lia.
  rewrite (Z.add_comm (i / 10) 48), (Z.add_comm (i mod 10) 48).
  reflexivity.
Qed.

(** Within the field width the two bytes are the two decimal digits. *)
Lemma UART_PrintNum_two_digits i :
  0 <= i <= 99 -> UART_PrintNum i = map EvPut (two_digits i).
Proof.
  intros H. rewrite UART_PrintNum_nonneg by (unfold CInt.INT_MAX; lia).
  unfold two_digits, ch_0. cbn [map].
  assert (H1 : 0 <= i / 10 < 10) by (Z.div_mod_to_equations; lia).
  rewrite (Z.mod_small (48 + i / 10)) by lia.
  reflexivity.
Qed.

Lemma two_digits_are_digits i :
  0 <= i <= 99 -> Forall is_digit (two_digits i).
Proof.
  intros H. unfold two_digits, is_digit, ch_0.
  assert (H1 : 0 <= i / 10 < 10) by (Z.div_mod_to_equations; lia).
  assert (H2 : 0 <= i mod 10 < 10) by (apply Z.mod_pos_bound; lia).
  repeat constructor; lia.
Qed.

(** [UART_PrintNum] always sends two bytes, whatever its argument. *)
Lemma UART_PrintNum_two_bytes i :
  exists b1 b2, UART_PrintNum i = [EvPut b1; EvPut b2].
Proof. unfold UART_PrintNum, putU1. cbn [app]. eauto. Qed.

(** [Screen_MoveCursor] never rejects its arguments: it sends eight bytes
    for every pair of [int]s. *)
Lemma Screen_MoveCursor_eight_bytes col row :
  exists bs, Screen_MoveCursor col row = map EvPut bs /\ length bs = 8%nat.
Proof.
  unfold Screen_MoveCursor, UART_PrintNum, putU1. cbn [app].
  eexists [_; _; _; _; _; _; _; _]. split; reflexivity.
Qed.

Lemma off_screen_false col row :
  on_screen col row -> off_screen col row = false.
Proof.
  unfold on_screen, off_screen, X_MIN, X_MAX, Y_MIN, Y_MAX,
    SCREEN_X_START, SCREEN_X_END, SCREEN_Y_START, SCREEN_Y_END.
  intros [Hx Hy].
  rewrite !Z.gtb_ltb, !orb_false_iff.
  repeat split; apply Z.ltb_ge; lia.
Qed.

Lemma off_screen_true col row :
  ~ on_screen col row -> off_screen col row = true.
Proof.
  intros H. destruct (off_screen col row) eqn:E; [reflexivity |].
  exfalso; apply H.
  unfold on_screen, off_screen, X_MIN, X_MAX, Y_MIN, Y_MAX,
    SCREEN_X_START, SCREEN_X_END, SCREEN_Y_START, SCREEN_Y_END in *.
  rewrite !Z.gtb_ltb, !orb_false_iff in E.
  destruct E as [[[E1 E2] E3] E4].
  apply Z.ltb_ge in E1, E2, E3, E4. lia.
Qed.

Lemma on_screen_dec col row : {on_screen col row} + {~ on_screen col row}.
Proof.
  unfold on_screen.
  destruct (Z_le_dec X_MIN col), (Z_le_dec col X_MAX),
    (Z_le_dec Y_MIN row), (Z_le_dec row Y_MAX);
    solve [left; auto | right; intros [[? ?] [? ?]]; contradiction].
Qed.

(** The two paths through the writers. *)
Lemma Screen_WriteChar_on col row c :
  on_screen col row ->
  Screen_WriteChar col row c =
    (FallOffEnd,
     EvSchedLock :: Screen_MoveCursor col row ++
     [EvPut (c mod 256); EvSchedUnlock]).
Proof.
  intros H. unfold Screen_WriteChar.
  rewrite (off_screen_false col row H). reflexivity.
Qed.

Lemma Screen_WriteChar_off col row c :
  ~ on_screen col row -> Screen_WriteChar col row c = (Return 1, []).
Proof.
  intros H. unfold Screen_WriteChar.
  rewrite (off_screen_true col row H). reflexivity.
Qed.

Lemma Screen_WriteNumber_on col row number :
  on_screen col row ->
  Screen_WriteNumber col row number =
    (FallOffEnd,
     EvSchedLock :: Screen_MoveCursor col row ++ UART_PrintNum number ++
     [EvSchedUnlock]).
Proof.
  intros H. unfold Screen_WriteNumber.
  rewrite (off_screen_false col row H). reflexivity.
Qed.

Lemma Screen_WriteNumber_off col row number :
  ~ on_screen col row -> Screen_WriteNumber col row number = (Return 1, []).
Proof.
  intros H. unfold Screen_WriteNumber.
  rewrite (off_screen_true col row H). reflexivity.
Qed.

Lemma bytes_of_puts bs : bytes_of (map EvPut bs) = bs.
Proof. induction bs as [| b bs IH]; simpl; [| rewrite IH]; reflexivity. Qed.

Lemma Screen_MoveCursor_puts col row :
  Screen_MoveCursor col row = map EvPut (bytes_of (Screen_MoveCursor col row)).
Proof.
  destruct (Screen_MoveCursor_eight_bytes col row) as (bs & -> & _).
  rewrite bytes_of_puts. reflexivity.
Qed.

Ltac screen_bounds :=
  unfold on_screen, X_MIN, X_MAX, Y_MIN, Y_MAX, SCREEN_X_START,
    SCREEN_X_END, SCREEN_Y_START, SCREEN_Y_END; lia.

(** C3. [Screen_MoveCursor col row] sends ESC, '[', the row as two
    zero-padded decimal digits, ';', the column as two zero-padded decimal
    digits, and 'H', for all [col], [row] in 0..99 -- on the screen or
    not: the function checks no bounds and takes no lock.  For column 12
    and row 13 the bytes are ESC '[' '1' '3' ';' '1' '2' 'H'. *)
Theorem Screen_MoveCursor_sequence (col row : Z)
  (Hcol : 0 <= col <= 99) (Hrow : 0 <= row <= 99) :
  Screen_MoveCursor col row =
    map EvPut ([ESC; ch_lbracket] ++ two_digits row ++ [ch_semi] ++
               two_digits col ++ [ch_H])
  /\ Forall is_digit (two_digits row ++ two_digits col)
  /\ bytes_of (Screen_MoveCursor 12 13) = [27; 91; 49; 51; 59; 49; 50; 72].
Proof.
  split; [| split].
  - unfold Screen_MoveCursor.
    rewrite (UART_PrintNum_two_digits row Hrow).
    rewrite (UART_PrintNum_two_digits col Hcol).
    unfold putU1, two_digits. reflexivity.
  - apply Forall_app; split; apply two_digits_are_digits; assumption.
  - reflexivity.
Qed.

Lemma Screen_MoveCursor_sequence_witness :
  Screen_MoveCursor 0 99 =
    map EvPut ([ESC; ch_lbracket] ++ two_digits 99 ++ [ch_semi] ++
               two_digits 0 ++ [ch_H])
  /\ Forall is_digit (two_digits 99 ++ two_digits 0)
  /\ bytes_of (Screen_MoveCursor 12 13) = [27; 91; 49; 51; 59; 49; 50; 72].
Proof. apply (Screen_MoveCursor_sequence 0 99); lia. Defined.

(** The two bytes [UART_PrintNum] sends, for every [int]. *)
Lemma UART_PrintNum_bytes i :
  UART_PrintNum i =
    [EvPut ((ch_0 + (i mod 2 ^ 32) / 10) mod 256);
     EvPut (ch_0 + (i mod 2 ^ 32) mod 10)].
Proof.
  unfold UART_PrintNum, putU1, CInt.uadd, CInt.umod, CInt.udiv,
    CInt.to_unsigned, CInt.modulus, ch_0.
  assert (Hd : 0 <= (i mod 2 ^ 32) mod 10 < 10)
    by (apply Z.mod_pos_bound; lia).
  rewrite (Z.mod_small ((i mod 2 ^ 32) mod 10 + 48) (2 ^ 32)) by lia.
  rewrite (Z.mod_small ((i mod 2 ^ 32) mod 10 + 48) 256) by lia.
  rewrite (Z.mod_mod_divide ((i mod 2 ^ 32) / 10 + 48) (2 ^ 32) 256)
    by (exists (2 ^ 24); reflexivity).
  rewrite (Z.add_comm ((i mod 2 ^ 32) / 10) 48),
    (Z.add_comm ((i mod 2 ^ 32) mod 10) 48).
  reflexivity.
Qed.

(** On the screen the cursor move is the sequence of the design
    document, with decimal digits in its four field bytes. *)
Lemma Screen_MoveCursor_on_screen col row :
  on_screen col row ->
  Screen_MoveCursor col row = map EvPut (cursor_sequence col row)
  /\ Forall is_digit (two_digits row ++ two_digits col).
Proof.
  intros [Hc Hr].
  change X_MIN with 1 in Hc. change X_MAX with 80 in Hc.
  change Y_MIN with 1 in Hr. change Y_MAX with 25 in Hr.
  split.
  - unfold Screen_MoveCursor, cursor_sequence.
    rewrite (UART_PrintNum_two_digits row) by lia.
    rewrite (UART_PrintNum_two_digits col) by lia.
    unfold putU1, two_digits. reflexivity.
  - apply Forall_app; split; apply two_digits_are_digits; lia.
Qed.

(** C1. On the screen (1..80 by 1..25) [Screen_WriteChar] and
    [Screen_WriteNumber] do not take the error return and send exactly
    the cursor-move sequence for (col, row) -- ESC '[', the row in two
    decimal digits, ';', the column in two decimal digits, 'H' --
    followed by the content: the one raw byte of the glyph, or the two
    bytes of the number, '0' + number / 10 (its low eight bits) and
    '0' + number mod 10, the number read as unsigned; for a number in
    0..99 these are its two decimal digits.  Off the screen they return
    1 and perform no event at all. *)
Theorem writers_bounds (col row c number : Z) :
  (on_screen col row ->
     fst (Screen_WriteChar col row c) = FallOffEnd
     /\ bytes_of (snd (Screen_WriteChar col row c)) =
          cursor_sequence col row ++ [c mod 256]
     /\ fst (Screen_WriteNumber col row number) = FallOffEnd
     /\ bytes_of (snd (Screen_WriteNumber col row number)) =
          cursor_sequence col row ++
          [(ch_0 + (number mod 2 ^ 32) / 10) mod 256;
           ch_0 + (number mod 2 ^ 32) mod 10]
     /\ (0 <= number <= 99 ->
           bytes_of (snd (Screen_WriteNumber col row number)) =
             cursor_sequence col row ++ two_digits number)
     /\ bytes_of (Screen_MoveCursor col row) = cursor_sequence col row
     /\ Forall is_digit (two_digits row ++ two_digits col))
  /\ (~ on_screen col row ->
        Screen_WriteChar col row c = (Return 1, [])
        /\ Screen_WriteNumber col row number = (Return 1, [])).
Proof.
  split; intros H.
  - destruct (Screen_MoveCursor_on_screen col row H) as [Hmc Hdig].
    rewrite (Screen_WriteChar_on col row c H).
    rewrite (Screen_WriteNumber_on col row number H).
    cbn [fst snd bytes_of]. rewrite !bytes_of_app.
    rewrite Hmc, bytes_of_puts.
    split; [reflexivity | split; [reflexivity | split; [reflexivity |]]].
    split; [| split; [| split; [reflexivity | exact Hdig]]].
    + rewrite (UART_PrintNum_bytes number). reflexivity.
    + intros Hn. rewrite (UART_PrintNum_two_digits number Hn).
      rewrite bytes_of_puts. reflexivity.
  - rewrite (Screen_WriteChar_off col row c H).
    rewrite (Screen_WriteNumber_off col row number H).
    split; reflexivity.
Qed.

Lemma writers_bounds_witness :
  (fst (Screen_WriteChar 12 13 ch_star) = FallOffEnd
   /\ bytes_of (snd (Screen_WriteChar 12 13 ch_star)) =
        [27; 91; 49; 51; 59; 49; 50; 72; 42]
   /\ fst (Screen_WriteNumber 12 13 7) = FallOffEnd
   /\ bytes_of (snd (Screen_WriteNumber 12 13 7)) =
        [27; 91; 49; 51; 59; 49; 50; 72; 48; 55])
  /\ (Screen_WriteChar 81 13 ch_star = (Return 1, [])
      /\ Screen_WriteNumber 12 0 7 = (Return 1, [])).
Proof.
  split.
  - assert (Hon : on_screen 12 13) by screen_bounds.
    destruct (writers_bounds 12 13 ch_star 7) as [Hin _].
    destruct (Hin Hon) as (H1 & H2 & H3 & _ & H5 & _).
    split; [exact H1 | split; [rewrite H2; reflexivity |]].
    split; [exact H3 |]. rewrite H5 by lia. reflexivity.
  - split.
    + apply (writers_bounds 81 13 ch_star 7).
      screen_bounds.
    + apply (writers_bounds 12 0 ch_star 7).
      screen_bounds.
Defined.

(** C10. On the screen both writers reach their closing brace without a
    [return]: the call has no value, and the caller may read any [int],
    1 included.  Off the screen they return 1, the only defined result.
    So reading 1 tells a caller nothing. *)
Theorem writers_return_value (col row c number v : Z) :
  (on_screen col row ->
     fst (Screen_WriteChar col row c) = FallOffEnd
     /\ fst (Screen_WriteNumber col row number) = FallOffEnd
     /\ (CInt.in_range v ->
           may_observe (fst (Screen_WriteChar col row c)) v
           /\ may_observe (fst (Screen_WriteNumber col row number)) v))
  /\ (~ on_screen col row ->
        fst (Screen_WriteChar col row c) = Return 1
        /\ fst (Screen_WriteNumber col row number) = Return 1
        /\ (may_observe (fst (Screen_WriteChar col row c)) v <-> v = 1)
        /\ (may_observe (fst (Screen_WriteNumber col row number)) v
            <-> v = 1)).
Proof.
  split; intros H.
  - rewrite (Screen_WriteChar_on col row c H).
    rewrite (Screen_WriteNumber_on col row number H).
    cbn [fst may_observe].
    split; [reflexivity | split; [reflexivity |]].
    intros Hv; split; exact Hv.
  - rewrite (Screen_WriteChar_off col row c H).
    rewrite (Screen_WriteNumber_off col row number H).
    cbn [fst may_observe].
    split; [reflexivity | split; [reflexivity |]].
    split; split; auto.
Qed.

Lemma writers_return_value_witness :
  (may_observe (fst (Screen_WriteChar 12 13 ch_star)) 1
   /\ may_observe (fst (Screen_WriteNumber 12 13 7)) 1)
  /\ may_observe (fst (Screen_WriteChar 81 13 ch_star)) 1
  /\ may_observe (fst (Screen_WriteNumber 81 13 7)) 1.
Proof.
  split; [| split].
  - apply (writers_return_value 12 13 ch_star 7 1).
    + screen_bounds.
    + unfold CInt.in_range, CInt.INT_MIN, CInt.INT_MAX. lia.
  - apply (writers_return_value 81 13 ch_star 7 1).
    + screen_bounds.
    + reflexivity.
  - apply (writers_return_value 81 13 ch_star 7 1).
    + screen_bounds.
    + reflexivity.
Defined.

(** C5, counterexample.  [Screen_WriteNumber] does not wrap its value
    modulo 100: for 100 the two bytes after the cursor move are ':' '0',
    not the digits of 100 mod 100. *)
Lemma WriteNumber_no_wrap_at_100 :
  bytes_of (snd (Screen_WriteNumber 3 3 100)) =
    bytes_of (Screen_MoveCursor 3 3) ++ [58; 48]
  /\ bytes_of (snd (Screen_WriteNumber 3 3 100)) <>
       bytes_of (Screen_MoveCursor 3 3) ++ two_digits (100 mod 100).
Proof.
  split.
  - reflexivity.
  - vm_compute. intros H. discriminate H.
Qed.

(** The three-digit variant behaves alike: 7 gives "007", and 1000 is not
    reduced modulo 1000 but starts with ':', the byte after '9'. *)
Lemma UART_PrintNum3_examples :
  bytes_of (UART_PrintNum3 7) = [48; 48; 55]
  /\ bytes_of (UART_PrintNum3 512) = [53; 49; 50]
  /\ bytes_of (UART_PrintNum3 1000) = [58; 48; 48].
Proof. repeat split; reflexivity. Qed.

(** C5, amended. On the screen, [Screen_WriteNumber] sends after the
    cursor move two bytes for a non-negative value: the low eight bits of
    '0' + value / 10, then the units digit '0' + value mod 10.  For a
    value in 0..99 these are its two zero-padded decimal digits (7 gives
    '0' '7').  A larger value is not reduced modulo 100: from 100 to 2079
    the first byte is past '9' and is no decimal digit. *)
Theorem WriteNumber_field (col row value : Z)
  (Hpos : on_screen col row) (Hval : 0 <= value <= CInt.INT_MAX) :
  bytes_of (snd (Screen_WriteNumber col row value)) =
    bytes_of (Screen_MoveCursor col row) ++
    [(ch_0 + value / 10) mod 256; ch_0 + value mod 10]
  /\ is_digit (ch_0 + value mod 10)
  /\ (value <= 99 ->
        bytes_of (snd (Screen_WriteNumber col row value)) =
          bytes_of (Screen_MoveCursor col row) ++ two_digits value
        /\ Forall is_digit (two_digits value))
  /\ (100 <= value <= 2079 ->
        (ch_0 + value / 10) mod 256 = ch_0 + value / 10
        /\ ~ is_digit ((ch_0 + value / 10) mod 256))
  /\ bytes_of (UART_PrintNum 7) = [48; 55].
Proof.
  assert (Hbytes : bytes_of (snd (Screen_WriteNumber col row value)) =
                   bytes_of (Screen_MoveCursor col row) ++
                   [(ch_0 + value / 10) mod 256; ch_0 + value mod 10]).
  { rewrite (Screen_WriteNumber_on col row value Hpos).
    rewrite (UART_PrintNum_nonneg value Hval).
    cbn [snd bytes_of]. rewrite bytes_of_app. reflexivity. }
  assert (Hunits : 0 <= value mod 10 < 10) by (apply Z.mod_pos_bound; lia).
  split; [exact Hbytes | split; [| split; [| split]]].
  - unfold is_digit, ch_0. lia.
  - intros Hle. split.
    + rewrite Hbytes. unfold two_digits, ch_0.
      assert (H1 : 0 <= value / 10 < 10) by (Z.div_mod_to_equations; lia).
      rewrite (Z.mod_small (48 + value / 10)) by lia. reflexivity.
    + apply two_digits_are_digits. lia.
  - intros Hbig.
    assert (H1 : 10 <= value / 10 <= 207) by (Z.div_mod_to_equations; lia).
    unfold is_digit, ch_0.
    rewrite (Z.mod_small (48 + value / 10)) by lia.
    split; [reflexivity | lia].
  - reflexivity.
Qed.

Lemma WriteNumber_field_witness :
  bytes_of (snd (Screen_WriteNumber 3 3 7)) =
    bytes_of (Screen_MoveCursor 3 3) ++ two_digits 7
  /\ Forall is_digit (two_digits 7).
Proof.
  assert (Hpos : on_screen 3 3).
  { screen_bounds. }
  assert (Hval : 0 <= 7 <= CInt.INT_MAX) by (unfold CInt.INT_MAX; lia).
  destruct (WriteNumber_field 3 3 7 Hpos Hval) as (_ & _ & H & _).
  apply H. lia.
Defined.

(* ################################################################# *)
(** * The ball task *)

Lemma c_true_flag v : c_true (if c_true v then 1 else 0) = c_true v.
Proof. destruct (c_true v); reflexivity. Qed.

Lemma c_true_asserted v : c_true v = true <-> asserted v.
Proof.
  unfold c_true, asserted. rewrite negb_true_iff. apply Z.eqb_neq.
Qed.

Lemma c_true_released v : c_true v = false <-> ~ asserted v.
Proof.
  unfold c_true, asserted. rewrite negb_false_iff, Z.eqb_eq. lia.
Qed.

Lemma tick_unfold sw b : tick sw b = advance (steer sw b).
Proof. reflexivity. Qed.

Lemma advance_velocity b : velocity (advance b) = velocity b.
Proof. reflexivity. Qed.

(** The velocity [steer] leaves, by the first asserted switch. *)
Lemma steer_velocity sw b :
  velocity (steer sw b) =
    if c_true (RIGHT_UP_SW sw) then (0, 1)
    else if c_true (RIGHT_DOWN_SW sw) then (0, -1)
    else if c_true (LEFT_DOWN_SW sw) then (-1, 0)
    else if c_true (LEFT_UP_SW sw) then (1, 0)
    else velocity b.
Proof.
  unfold steer, Ball_Up, Ball_Down, Ball_Left, Ball_Right.
  rewrite !c_true_flag.
  destruct (c_true (RIGHT_UP_SW sw)); [reflexivity |].
  destruct (c_true (RIGHT_DOWN_SW sw)); [reflexivity |].
  destruct (c_true (LEFT_DOWN_SW sw)); [reflexivity |].
  destruct (c_true (LEFT_UP_SW sw)); reflexivity.
Qed.

Lemma steer_position sw b : position (steer sw b) = position b.
Proof.
  unfold steer.
  destruct (c_true (Ball_Up sw)); [reflexivity |].
  destruct (c_true (Ball_Down sw)); [reflexivity |].
  destruct (c_true (Ball_Right sw)); [reflexivity |].
  destruct (c_true (Ball_Left sw)); reflexivity.
Qed.

Lemma steer_released b : steer released b = b.
Proof. reflexivity. Qed.

(** [steer] follows the transition table. *)
Lemma steer_table d sw b :
  velocity b = Table.velocity_of d ->
  velocity (steer sw b) =
    Table.velocity_of (Table.transition d (pattern_of sw)).
Proof.
  intros Hv. rewrite steer_velocity.
  unfold Table.transition, pattern_of; cbn [Table.up Table.down
    Table.left_mapped Table.right_mapped].
  destruct (c_true (RIGHT_UP_SW sw)); [reflexivity |].
  destruct (c_true (RIGHT_DOWN_SW sw)); [reflexivity |].
  destruct (c_true (LEFT_DOWN_SW sw)); [reflexivity |].
  destruct (c_true (LEFT_UP_SW sw)); [reflexivity | exact Hv].
Qed.

Lemma velocity_of_unit d :
  -1 <= fst (Table.velocity_of d) <= 1 /\ -1 <= snd (Table.velocity_of d) <= 1.
Proof. destruct d; cbn; lia. Qed.

Lemma velocity_of_axis d : axis_aligned (Table.velocity_of d).
Proof. destruct d; unfold axis_aligned; cbn; auto. Qed.

Lemma axis_aligned_steer sw b :
  axis_aligned (velocity b) -> axis_aligned (velocity (steer sw b)).
Proof.
  intros H. rewrite steer_velocity. unfold axis_aligned.
  destruct (c_true (RIGHT_UP_SW sw)); [auto |].
  destruct (c_true (RIGHT_DOWN_SW sw)); [auto |].
  destruct (c_true (LEFT_DOWN_SW sw)); [auto |].
  destruct (c_true (LEFT_UP_SW sw)); [auto | exact H].
Qed.

Lemma axis_aligned_one_zero b :
  axis_aligned (velocity b) -> x_delta b = 0 \/ y_delta b = 0.
Proof.
  unfold axis_aligned, velocity.
  intros [H | [H | [H | H]]]; inversion H; auto.
Qed.

(** The position after a pass, when the sums fit an [int]. *)
Lemma tick_position sw b :
  CInt.in_range (x b + x_delta (steer sw b)) ->
  CInt.in_range (y b + y_delta (steer sw b)) ->
  position (tick sw b) =
    Table.move (position b) (velocity (tick sw b)).
Proof.
  intros Hx Hy. rewrite tick_unfold, advance_velocity.
  pose proof (steer_position sw b) as Hp.
  unfold position in Hp. inversion Hp as [[Hpx Hpy]].
  unfold position, advance, Table.move, velocity; cbn [x y fst snd].
  rewrite Hpx, Hpy.
  rewrite (add_in_range _ _ Hx), (add_in_range _ _ Hy). reflexivity.
Qed.

(** The states of the code against the replay of the table, for a ball
    with room for [length inputs] steps on either side. *)
Lemma ball_states_replay inputs :
  forall b d,
    velocity b = Table.velocity_of d ->
    CInt.INT_MIN + Z.of_nat (length inputs) <= x b
      <= CInt.INT_MAX - Z.of_nat (length inputs) ->
    CInt.INT_MIN + Z.of_nat (length inputs) <= y b
      <= CInt.INT_MAX - Z.of_nat (length inputs) ->
    map (fun s => (velocity s, position s)) (ball_states inputs b) =
    map (fun dp => (Table.velocity_of (fst dp), snd dp))
        (Table.replay (map pattern_of inputs) d (position b)).
Proof.
  induction inputs as [| sw rest IH]; intros b d Hv Hx Hy; [reflexivity |].
  cbn [ball_states map Table.replay fst snd].
  cbn [length] in Hx, Hy. rewrite Nat2Z.inj_succ in Hx, Hy.
  pose proof (steer_table d sw b Hv) as Hst.
  pose proof (velocity_of_unit (Table.transition d (pattern_of sw)))
    as [Hdx Hdy].
  assert (Hvt : velocity (tick sw b) =
                Table.velocity_of (Table.transition d (pattern_of sw))).
  { rewrite tick_unfold, advance_velocity. exact Hst. }
  assert (Hsx : x_delta (steer sw b) =
                fst (Table.velocity_of (Table.transition d (pattern_of sw)))).
  { rewrite <- Hst. reflexivity. }
  assert (Hsy : y_delta (steer sw b) =
                snd (Table.velocity_of (Table.transition d (pattern_of sw)))).
  { rewrite <- Hst. reflexivity. }
  assert (Hpos : position (tick sw b) =
                 Table.move (position b) (velocity (tick sw b))).
  { apply tick_position; unfold CInt.in_range; lia. }
  rewrite Hvt in Hpos.
  f_equal.
  - rewrite Hvt, Hpos. reflexivity.
  - rewrite <- Hpos. apply IH.
    + exact Hvt.
    + assert (Hx1 : x (tick sw b) = x b + x_delta (steer sw b)).
      { change (x (tick sw b)) with (fst (position (tick sw b))).
        rewrite Hpos, Hsx. reflexivity. }
      lia.
    + assert (Hy1 : y (tick sw b) = y b + y_delta (steer sw b)).
      { change (y (tick sw b)) with (snd (position (tick sw b))).
        rewrite Hpos, Hsy. reflexivity. }
      lia.
Qed.

Lemma last_cons {A : Type} (a d : A) (l : list A) :
  last (a :: l) d = last l a.
Proof.
  revert a d. induction l as [| a' l IH]; intros a d; [reflexivity |].
  change (last (a :: a' :: l) d) with (last (a' :: l) d).
  rewrite (IH a' d), (IH a' a). reflexivity.
Qed.

Lemma loop_cons sw rest b :
  fst (App_TaskBall_loop (sw :: rest) b) =
  fst (App_TaskBall_loop rest (tick sw b)).
Proof.
  cbn [App_TaskBall_loop]. unfold tick.
  destruct (App_TaskBall_body sw b) as [b1 t1]. cbn [fst].
  destruct (App_TaskBall_loop rest b1) as [b2 t2]. reflexivity.
Qed.

(** [ball_states] lists the states the loop goes through. *)
Lemma loop_final inputs :
  forall b, fst (App_TaskBall_loop inputs b) = last (ball_states inputs b) b.
Proof.
  induction inputs as [| sw rest IH]; intros b; [reflexivity |].
  rewrite loop_cons, IH. cbn [ball_states].
  symmetry. apply last_cons.
Qed.

Lemma coast_S n b : coast (S n) b = coast n (tick released b).
Proof. unfold coast. cbn [repeat]. apply loop_cons. Qed.

(** A ball moving right with every switch released keeps its row and
    gains one column per pass, as long as the column fits an [int]. *)
Lemma coast_right n :
  forall b,
    velocity b = (1, 0) ->
    CInt.INT_MIN <= x b -> x b + Z.of_nat n <= CInt.INT_MAX ->
    CInt.in_range (y b) ->
    position (coast n b) = (x b + Z.of_nat n, y b)
    /\ velocity (coast n b) = (1, 0).
Proof.
  induction n as [| n IH]; intros b Hv Hlo Hhi Hy.
  - unfold coast. cbn. unfold position. rewrite Z.add_0_r. auto.
  - rewrite coast_S. rewrite Nat2Z.inj_succ in Hhi |- *.
    assert (Hdx : x_delta b = 1).
    { change (x_delta b) with (fst (velocity b)). rewrite Hv. reflexivity. }
    assert (Hdy : y_delta b = 0).
    { change (y_delta b) with (snd (velocity b)). rewrite Hv. reflexivity. }
    assert (Ht : tick released b =
                 {| x := x b + 1; y := y b; x_delta := 1; y_delta := 0 |}).
    { rewrite tick_unfold, steer_released. unfold advance.
      rewrite Hdx, Hdy.
      rewrite (add_in_range (x b) 1) by (unfold CInt.in_range; lia).
      rewrite (add_in_range (y b) 0) by (rewrite Z.add_0_r; exact Hy).
      rewrite Z.add_0_r. reflexivity. }
    rewrite Ht.
    destruct (IH {| x := x b + 1; y := y b; x_delta := 1; y_delta := 0 |})
      as [Hp Hv']; cbn [x y]; try reflexivity; try lia; try exact Hy.
    split; [| exact Hv'].
    rewrite Hp. cbn [x y]. f_equal. lia.
Qed.

Lemma ball_states_axis inputs :
  forall b,
    axis_aligned (velocity b) ->
    Forall (fun s => axis_aligned (velocity s)
                     /\ (x_delta s = 0 \/ y_delta s = 0))
           (ball_states inputs b).
Proof.
  induction inputs as [| sw rest IH]; intros b Hb; [constructor |].
  cbn [ball_states].
  assert (Ht : axis_aligned (velocity (tick sw b))).
  { rewrite tick_unfold, advance_velocity.
    apply axis_aligned_steer; exact Hb. }
  constructor.
  - split; [exact Ht | apply axis_aligned_one_zero; exact Ht].
  - apply IH; exact Ht.
Qed.

Lemma ball0_velocity : velocity ball0 = (1, 0).
Proof. reflexivity. Qed.

Lemma ball0_position : position ball0 = (39, 12).
Proof. reflexivity. Qed.

(** C2. The ball task starts in MovingRight (dx = +1, dy = 0).  Each pass
    resolves the switches in the order of the table -- up, down, the
    input giving dx = -1, the input giving dx = +1, else the velocity is
    kept -- and then adds the velocity to the position, so the states of
    the loop are the replay of the transition table on the same inputs.
    With nothing asserted for five passes the column advances by five and
    the row stays. *)
Theorem ball_replays_table (inputs : list switches)
  (Hlen : Z.of_nat (length inputs) <= CInt.INT_MAX - BALL_X_START) :
  velocity ball0 = Table.velocity_of Table.initial
  /\ velocity ball0 = (1, 0)
  /\ map (fun s => (velocity s, position s)) (ball_states inputs ball0) =
     map (fun dp => (Table.velocity_of (fst dp), snd dp))
         (Table.replay (map pattern_of inputs) Table.initial
                       (position ball0))
  /\ fst (App_TaskBall_loop inputs ball0) =
       last (ball_states inputs ball0) ball0
  /\ map position (ball_states (repeat released 5) ball0) =
       [(BALL_X_START + 1, BALL_Y_START); (BALL_X_START + 2, BALL_Y_START);
        (BALL_X_START + 3, BALL_Y_START); (BALL_X_START + 4, BALL_Y_START);
        (BALL_X_START + 5, BALL_Y_START)].
Proof.
  split; [reflexivity | split; [reflexivity | split; [| split]]].
  - apply ball_states_replay.
    + reflexivity.
    + change (x ball0) with BALL_X_START.
      unfold CInt.INT_MAX, CInt.INT_MIN, BALL_X_START, SCREEN_X_END,
        SCREEN_X_START in *.
      change ((80 - 1) / 2) with 39 in *. lia.
    + change (y ball0) with BALL_Y_START.
      unfold CInt.INT_MAX, CInt.INT_MIN, BALL_X_START, BALL_Y_START,
        SCREEN_X_END, SCREEN_X_START, SCREEN_Y_END, SCREEN_Y_START in *.
      change ((80 - 1) / 2) with 39 in *.
      change ((25 - 1) / 2) with 12. lia.
  - apply loop_final.
  - reflexivity.
Qed.

Lemma ball_replays_table_witness :
  map (fun s => (velocity s, position s))
      (ball_states [released; released; mkSwitches 1 0 0 0;
                    mkSwitches 0 0 0 1; mkSwitches 0 1 1 1] ball0) =
  [((1, 0), (40, 12)); ((1, 0), (41, 12)); ((0, 1), (41, 13));
   ((-1, 0), (40, 13)); ((0, -1), (40, 12))].
Proof.
  assert (Hlen : Z.of_nat (length [released; released; mkSwitches 1 0 0 0;
                                   mkSwitches 0 0 0 1; mkSwitches 0 1 1 1])
                 <= CInt.INT_MAX - BALL_X_START) by (vm_compute; discriminate).
  destruct (ball_replays_table _ Hlen) as (_ & _ & H & _).
  rewrite H. reflexivity.
Defined.

(** C6. The velocity of the ball is axis-aligned at all times: it starts
    as (1, 0); every resolution of the inputs and every pass of the loop
    keeps it among (1,0), (-1,0), (0,1), (0,-1); so in every state the
    loop reaches at most one of dx, dy is non-zero. *)
Theorem velocity_axis_aligned (inputs : list switches) (sw : switches)
  (b : ball) :
  axis_aligned (velocity ball0)
  /\ (axis_aligned (velocity b) ->
        axis_aligned (velocity (steer sw b))
        /\ axis_aligned (velocity (tick sw b)))
  /\ Forall (fun s => axis_aligned (velocity s)
                      /\ (x_delta s = 0 \/ y_delta s = 0))
            (ball_states inputs ball0).
Proof.
  split; [left; reflexivity | split].
  - intros Hb. split.
    + apply axis_aligned_steer; exact Hb.
    + rewrite tick_unfold, advance_velocity.
      apply axis_aligned_steer; exact Hb.
  - apply ball_states_axis. left; reflexivity.
Qed.

Lemma velocity_axis_aligned_witness :
  axis_aligned (velocity (steer (mkSwitches 0 1 1 0) ball0))
  /\ axis_aligned (velocity (tick (mkSwitches 0 1 1 0) ball0)).
Proof.
  destruct (velocity_axis_aligned [] (mkSwitches 0 1 1 0) ball0)
    as (_ & H & _).
  apply H. left; reflexivity.
Defined.

(** C7. The position update handles no wall and no paddle: after every
    pass the position is the old one plus the velocity (the sums fitting
    an [int]); the velocity after the pass is the one the switches
    resolve to, whatever the position is, so it is never reflected at
    X_MIN, X_MAX, Y_MIN or Y_MAX.  A coasting ball therefore leaves the
    printable region and goes on: after [n] passes from the start it is
    at column BALL_X_START + n, for every [n] up to the largest [int]. *)
Theorem ball_no_collision (sw : switches) (b : ball) (n : nat)
  (Hx : CInt.in_range (x b + x_delta (steer sw b)))
  (Hy : CInt.in_range (y b + y_delta (steer sw b)))
  (Hn : BALL_X_START + Z.of_nat n <= CInt.INT_MAX) :
  position (tick sw b) = Table.move (position b) (velocity (tick sw b))
  /\ velocity (tick sw b) = velocity (steer sw b)
  /\ (forall b', velocity b' = velocity b ->
                 velocity (tick sw b') = velocity (tick sw b))
  /\ position (coast n ball0) = (BALL_X_START + Z.of_nat n, BALL_Y_START)
  /\ velocity (coast n ball0) = (1, 0)
  /\ (X_MAX - BALL_X_START < Z.of_nat n ->
        X_MAX < x (coast n ball0)
        /\ ~ on_screen (x (coast n ball0)) (y (coast n ball0))).
Proof.
  assert (Hcoast : position (coast n ball0) =
                     (BALL_X_START + Z.of_nat n, BALL_Y_START)
                   /\ velocity (coast n ball0) = (1, 0)).
  { apply (coast_right n ball0).
    - reflexivity.
    - vm_compute. discriminate.
    - exact Hn.
    - vm_compute. split; discriminate. }
  destruct Hcoast as [Hp Hv].
  split; [| split; [| split; [| split; [| split]]]].
  - apply tick_position; assumption.
  - reflexivity.
  - intros b' Hb'. rewrite !tick_unfold, !advance_velocity.
    rewrite !steer_velocity, Hb'. reflexivity.
  - exact Hp.
  - exact Hv.
  - intros Hout.
    assert (Hxn : x (coast n ball0) = BALL_X_START + Z.of_nat n).
    { change (x (coast n ball0)) with (fst (position (coast n ball0))).
      rewrite Hp. reflexivity. }
    rewrite Hxn. split; [lia |].
    unfold on_screen. lia.
Qed.

Lemma ball_no_collision_witness :
  position (tick released (mkBall 80 25 1 0)) = (81, 25)
  /\ position (tick (mkSwitches 1 0 0 0) (mkBall 80 25 1 0)) = (80, 26)
  /\ position (coast 100 ball0) = (139, 12).
Proof.
  assert (Hn : BALL_X_START + Z.of_nat 100 <= CInt.INT_MAX)
    by (vm_compute; discriminate).
  split; [| split].
  - assert (Hx : CInt.in_range
                   (x (mkBall 80 25 1 0)
                    + x_delta (steer released (mkBall 80 25 1 0))))
      by (vm_compute; split; discriminate).
    assert (Hy : CInt.in_range
                   (y (mkBall 80 25 1 0)
                    + y_delta (steer released (mkBall 80 25 1 0))))
      by (vm_compute; split; discriminate).
    destruct (ball_no_collision released (mkBall 80 25 1 0) 100 Hx Hy Hn)
      as (H & _).
    rewrite H. reflexivity.
  - assert (Hx : CInt.in_range
                   (x (mkBall 80 25 1 0)
                    + x_delta (steer (mkSwitches 1 0 0 0) (mkBall 80 25 1 0))))
      by (vm_compute; split; discriminate).
    assert (Hy : CInt.in_range
                   (y (mkBall 80 25 1 0)
                    + y_delta (steer (mkSwitches 1 0 0 0) (mkBall 80 25 1 0))))
      by (vm_compute; split; discriminate).
    destruct (ball_no_collision (mkSwitches 1 0 0 0) (mkBall 80 25 1 0) 100
                Hx Hy Hn) as (H & _).
    rewrite H. reflexivity.
  - assert (Hx : CInt.in_range
                   (x ball0 + x_delta (steer released ball0)))
      by (vm_compute; split; discriminate).
    assert (Hy : CInt.in_range
                   (y ball0 + y_delta (steer released ball0)))
      by (vm_compute; split; discriminate).
    destruct (ball_no_collision released ball0 100 Hx Hy Hn)
      as (_ & _ & _ & H & _).
    rewrite H. reflexivity.
Defined.

(** C8. The vertical helpers read the right paddle's buttons and both
    horizontal helpers the left paddle's: [Ball_Up] reads RIGHT_UP_SW,
    [Ball_Down] RIGHT_DOWN_SW, [Ball_Left] LEFT_UP_SW and [Ball_Right]
    LEFT_DOWN_SW; each returns 1 exactly when its switch is asserted and
    0 otherwise, whatever the other three switches are. *)
Theorem ball_helpers_wiring (sw : switches) :
  ((Ball_Up sw = 1 <-> asserted (RIGHT_UP_SW sw))
   /\ (Ball_Up sw = 0 <-> ~ asserted (RIGHT_UP_SW sw)))
  /\ ((Ball_Down sw = 1 <-> asserted (RIGHT_DOWN_SW sw))
      /\ (Ball_Down sw = 0 <-> ~ asserted (RIGHT_DOWN_SW sw)))
  /\ ((Ball_Left sw = 1 <-> asserted (LEFT_UP_SW sw))
      /\ (Ball_Left sw = 0 <-> ~ asserted (LEFT_UP_SW sw)))
  /\ ((Ball_Right sw = 1 <-> asserted (LEFT_DOWN_SW sw))
      /\ (Ball_Right sw = 0 <-> ~ asserted (LEFT_DOWN_SW sw)))
  /\ (forall b2 b3 b4,
        Ball_Up (mkSwitches (RIGHT_UP_SW sw) b2 b3 b4) = Ball_Up sw)
  /\ (forall b1 b3 b4,
        Ball_Down (mkSwitches b1 (RIGHT_DOWN_SW sw) b3 b4) = Ball_Down sw)
  /\ (forall b1 b2 b4,
        Ball_Left (mkSwitches b1 b2 (LEFT_UP_SW sw) b4) = Ball_Left sw)
  /\ (forall b1 b2 b3,
        Ball_Right (mkSwitches b1 b2 b3 (LEFT_DOWN_SW sw)) = Ball_Right sw).
Proof.
  assert (Hflag : forall v,
            ((if c_true v then 1 else 0) = 1 <-> asserted v)
            /\ ((if c_true v then 1 else 0) = 0 <-> ~ asserted v)).
  { intros v. destruct (c_true v) eqn:E.
    - apply c_true_asserted in E.
      split; split; intros H; try reflexivity; try assumption;
        try discriminate H; contradiction.
    - apply c_true_released in E.
      split; split; intros H; try reflexivity; try assumption;
        try discriminate H; contradiction. }
  unfold Ball_Up, Ball_Down, Ball_Left, Ball_Right.
  repeat (split; [apply Hflag |]).
  repeat split; reflexivity.
Qed.

(* ################################################################# *)
(** * Lock sections *)

Lemma sections_from_puts acc bs p :
  sections_from (Some acc) (map EvPut bs ++ EvSchedUnlock :: p) =
  (acc ++ bs) :: sections p.
Proof.
  revert acc. induction bs as [| b bs IH]; intros acc; cbn.
  - rewrite app_nil_r. reflexivity.
  - rewrite IH, <- app_assoc. reflexivity.
Qed.

Lemma sections_section bs p :
  sections (EvSchedLock :: map EvPut bs ++ EvSchedUnlock :: p) =
  bs :: sections p.
Proof. unfold sections at 1. cbn. apply sections_from_puts. Qed.

Lemma sections_delay ms p : sections (EvTimeDly ms :: p) = sections p.
Proof. reflexivity. Qed.

Lemma puts_locked_puts bs p :
  puts_locked true (map EvPut bs ++ p) = puts_locked true p.
Proof. induction bs as [| b bs IH]; cbn; [reflexivity | exact IH]. Qed.

Lemma held_after_puts h bs p :
  held_after h (map EvPut bs ++ p) = held_after h p.
Proof. induction bs as [| b bs IH]; cbn; [reflexivity | exact IH]. Qed.

Lemma lock_user_app p q : lock_user p -> lock_user q -> lock_user (p ++ q).
Proof.
  intros Hp Hq. induction Hp as [| bs p Hp IH | ms p Hp IH].
  - exact Hq.
  - cbn. rewrite <- app_assoc. cbn. apply lu_section. exact IH.
  - cbn. apply lu_delay. exact IH.
Qed.

Lemma lock_user_sections_app p q :
  lock_user p -> sections (p ++ q) = sections p ++ sections q.
Proof.
  intros Hp. induction Hp as [| bs p Hp IH | ms p Hp IH].
  - reflexivity.
  - cbn [app]. rewrite <- app_assoc. cbn [app].
    rewrite !sections_section, IH. reflexivity.
  - cbn [app]. rewrite !sections_delay. exact IH.
Qed.

Lemma lock_user_puts_locked p :
  lock_user p -> forall q,
    puts_locked false (p ++ q) = puts_locked false q
    /\ held_after false (p ++ q) = held_after false q.
Proof.
  intros Hp. induction Hp as [| bs p Hp IH | ms p Hp IH]; intros q.
  - split; reflexivity.
  - cbn [app]. rewrite <- app_assoc. cbn [app puts_locked held_after].
    rewrite puts_locked_puts, held_after_puts. cbn. apply IH.
  - cbn. apply IH.
Qed.

(** The events of a write on the screen: one lock section. *)
Lemma Screen_WriteChar_section col row c :
  on_screen col row ->
  snd (Screen_WriteChar col row c) =
    EvSchedLock ::
    map EvPut (bytes_of (Screen_MoveCursor col row) ++ [c mod 256]) ++
    [EvSchedUnlock].
Proof.
  intros H. rewrite (Screen_WriteChar_on col row c H). cbn [snd].
  rewrite map_app, <- Screen_MoveCursor_puts, <- app_assoc. reflexivity.
Qed.

Lemma Screen_WriteNumber_section col row number :
  on_screen col row ->
  snd (Screen_WriteNumber col row number) =
    EvSchedLock ::
    map EvPut (bytes_of (Screen_MoveCursor col row) ++
               bytes_of (UART_PrintNum number)) ++
    [EvSchedUnlock].
Proof.
  intros H. rewrite (Screen_WriteNumber_on col row number H). cbn [snd].
  destruct (UART_PrintNum_two_bytes number) as (b1 & b2 & ->).
  rewrite map_app, <- Screen_MoveCursor_puts, <- app_assoc. reflexivity.
Qed.

Lemma Screen_WriteChar_lock_user col row c :
  lock_user (snd (Screen_WriteChar col row c)).
Proof.
  destruct (on_screen_dec col row) as [H | H].
  - rewrite (Screen_WriteChar_section col row c H).
    apply lu_section, lu_done.
  - rewrite (Screen_WriteChar_off col row c H). apply lu_done.
Qed.

Lemma Screen_WriteNumber_lock_user col row number :
  lock_user (snd (Screen_WriteNumber col row number)).
Proof.
  destruct (on_screen_dec col row) as [H | H].
  - rewrite (Screen_WriteNumber_section col row number H).
    apply lu_section, lu_done.
  - rewrite (Screen_WriteNumber_off col row number H). apply lu_done.
Qed.

Lemma App_TaskBall_body_trace sw b :
  snd (App_TaskBall_body sw b) =
    OSTimeDlyHMSM 0 0 0 75 ++
    snd (Screen_WriteChar (x b) (y b) ch_space) ++
    snd (Screen_WriteChar (x (tick sw b)) (y (tick sw b)) ch_star).
Proof. reflexivity. Qed.

Lemma App_TaskBall_body_lock_user sw b :
  lock_user (snd (App_TaskBall_body sw b)).
Proof.
  rewrite App_TaskBall_body_trace.
  apply lu_delay, lock_user_app; apply Screen_WriteChar_lock_user.
Qed.

Lemma App_TaskBall_loop_lock_user inputs :
  forall b, lock_user (snd (App_TaskBall_loop inputs b)).
Proof.
  induction inputs as [| sw rest IH]; intros b; [apply lu_done |].
  cbn [App_TaskBall_loop].
  pose proof (App_TaskBall_body_lock_user sw b) as Hb.
  destruct (App_TaskBall_body sw b) as [b1 t1].
  pose proof (IH b1) as Hl.
  destruct (App_TaskBall_loop rest b1) as [b2 t2].
  cbn [snd] in *. apply lock_user_app; assumption.
Qed.

Lemma App_TaskBall_lock_user inputs :
  lock_user (snd (App_TaskBall inputs)).
Proof.
  unfold App_TaskBall.
  pose proof (Screen_WriteChar_lock_user BALL_X_START BALL_Y_START ch_star)
    as H0.
  change (snd (Screen_WriteChar BALL_X_START BALL_Y_START ch_star))
    with (snd App_TaskBall_init) in H0.
  destruct App_TaskBall_init as [b0 t0].
  pose proof (App_TaskBall_loop_lock_user inputs b0) as Hl.
  destruct (App_TaskBall_loop inputs b0) as [b1 t1].
  cbn [snd] in *. apply lock_user_app; assumption.
Qed.

Lemma sections_WriteChar col row c :
  sections (snd (Screen_WriteChar col row c)) = write_section col row c.
Proof.
  unfold write_section. destruct (on_screen_dec col row) as [H | H].
  - rewrite (Screen_WriteChar_section col row c H).
    rewrite (off_screen_false col row H).
    change [EvSchedUnlock] with (EvSchedUnlock :: []).
    rewrite sections_section. reflexivity.
  - rewrite (Screen_WriteChar_off col row c H).
    rewrite (off_screen_true col row H). reflexivity.
Qed.

(** C4, counterexample.  One pass of the ball loop from the start
    position takes the lock twice: the erase and the draw are two
    sections, not one.  Between them the lock is free, and the write of another task can land there:
    in the example system the score writer (task 1) sends its bytes after
    the erase of the ball task (task 0) and before its draw. *)
Lemma ball_pass_two_acquisitions :
  sections (snd (App_TaskBall_body released ball0)) =
    [bytes_of (Screen_MoveCursor 39 12) ++ [ch_space];
     bytes_of (Screen_MoveCursor 40 12) ++ [ch_star]]
  /\ ~ one_acquisition (snd (App_TaskBall_body released ball0))
  /\ option_map (fun r => Sched.stream (snd r))
       (Sched.run (Sched.start demo_tasks) demo_schedule_between) =
     Some (map (pair 0%nat) (bytes_of (Screen_MoveCursor 39 12) ++ [ch_star])
           ++ map (pair 0%nat)
                  (bytes_of (Screen_MoveCursor 39 12) ++ [ch_space])
           ++ map (pair 1%nat)
                  (bytes_of (Screen_MoveCursor 3 3) ++ two_digits 7)
           ++ map (pair 0%nat)
                  (bytes_of (Screen_MoveCursor 40 12) ++ [ch_star])).
Proof.
  split; [reflexivity | split; [| reflexivity]].
  intros [_ [bs H]]. vm_compute in H. discriminate H.
Qed.

(** C4, amended. In each pass of the ball loop the erase and the draw
    are two [Screen_WriteChar] calls, and each takes the lock for itself
    when its position is on the screen, and takes no lock and sends
    nothing when it is not.  So every byte of the pass is sent while the
    lock is held; the lock is free again after the erase, while the
    switches are read and the position is advanced, and free at the end
    of the pass; and the lock sections of the pass are the erase, if on
    the screen, followed by the draw, if on the screen -- never one
    section holding both.  With both positions on the screen the pass
    has exactly two lock sections: the cursor sequence of the old
    position with a blank, then the cursor sequence of the new position
    with a star. *)
Theorem ball_pass_locking (sw : switches) (b : ball) :
  snd (App_TaskBall_body sw b) =
    OSTimeDlyHMSM 0 0 0 75 ++
    snd (Screen_WriteChar (x b) (y b) ch_space) ++
    snd (Screen_WriteChar (x (tick sw b)) (y (tick sw b)) ch_star)
  /\ puts_locked false (snd (App_TaskBall_body sw b)) = true
  /\ held_after false
       (OSTimeDlyHMSM 0 0 0 75 ++
        snd (Screen_WriteChar (x b) (y b) ch_space)) = false
  /\ held_after false (snd (App_TaskBall_body sw b)) = false
  /\ sections (snd (App_TaskBall_body sw b)) =
       write_section (x b) (y b) ch_space ++
       write_section (x (tick sw b)) (y (tick sw b)) ch_star
  /\ (forall bs, In bs (sections (snd (App_TaskBall_body sw b))) ->
        (on_screen (x b) (y b)
         /\ bs = cursor_sequence (x b) (y b) ++ [ch_space])
        \/ (on_screen (x (tick sw b)) (y (tick sw b))
            /\ bs = cursor_sequence (x (tick sw b)) (y (tick sw b)) ++
                    [ch_star]))
  /\ (~ on_screen (x b) (y b) ->
        snd (Screen_WriteChar (x b) (y b) ch_space) = [])
  /\ (~ on_screen (x (tick sw b)) (y (tick sw b)) ->
        snd (Screen_WriteChar (x (tick sw b)) (y (tick sw b)) ch_star) = [])
  /\ (on_screen (x b) (y b) ->
      on_screen (x (tick sw b)) (y (tick sw b)) ->
        sections (snd (App_TaskBall_body sw b)) =
          [cursor_sequence (x b) (y b) ++ [ch_space];
           cursor_sequence (x (tick sw b)) (y (tick sw b)) ++ [ch_star]]
        /\ ~ one_acquisition (snd (App_TaskBall_body sw b))).
Proof.
  assert (Hws : forall col row c,
            on_screen col row ->
            write_section col row c = [cursor_sequence col row ++ [c mod 256]]).
  { intros col row c H. unfold write_section.
    rewrite (off_screen_false col row H).
    destruct (Screen_MoveCursor_on_screen col row H) as [-> _].
    rewrite bytes_of_puts. reflexivity. }
  assert (Hwo : forall col row c,
            ~ on_screen col row -> write_section col row c = []).
  { intros col row c H. unfold write_section.
    rewrite (off_screen_true col row H). reflexivity. }
  assert (Hsec : sections (snd (App_TaskBall_body sw b)) =
            write_section (x b) (y b) ch_space ++
            write_section (x (tick sw b)) (y (tick sw b)) ch_star).
  { rewrite App_TaskBall_body_trace. unfold OSTimeDlyHMSM. cbn [app].
    rewrite sections_delay.
    rewrite (lock_user_sections_app _ _
               (Screen_WriteChar_lock_user (x b) (y b) ch_space)).
    rewrite !sections_WriteChar. reflexivity. }
  pose proof (App_TaskBall_body_lock_user sw b) as Hlu.
  destruct (lock_user_puts_locked _ Hlu []) as [Hpl Hha].
  rewrite app_nil_r in Hpl, Hha.
  split; [apply App_TaskBall_body_trace | split; [exact Hpl | split]].
  { assert (Hlu' : lock_user (OSTimeDlyHMSM 0 0 0 75 ++
                     snd (Screen_WriteChar (x b) (y b) ch_space))).
    { apply lu_delay, Screen_WriteChar_lock_user. }
    destruct (lock_user_puts_locked _ Hlu' []) as [_ H].
    rewrite app_nil_r in H. exact H. }
  split; [exact Hha | split; [exact Hsec | split]].
  { intros bs Hin. rewrite Hsec in Hin. apply in_app_or in Hin.
    destruct Hin as [Hin | Hin].
    - left. destruct (on_screen_dec (x b) (y b)) as [Hon | Hoff].
      + rewrite (Hws _ _ ch_space Hon) in Hin.
        destruct Hin as [<- | []]. split; [exact Hon | reflexivity].
      + rewrite (Hwo _ _ ch_space Hoff) in Hin. destruct Hin.
    - right.
      destruct (on_screen_dec (x (tick sw b)) (y (tick sw b)))
        as [Hon | Hoff].
      + rewrite (Hws _ _ ch_star Hon) in Hin.
        destruct Hin as [<- | []]. split; [exact Hon | reflexivity].
      + rewrite (Hwo _ _ ch_star Hoff) in Hin. destruct Hin. }
  split; [| split].
  - intros Hoff. rewrite (Screen_WriteChar_off _ _ ch_space Hoff).
    reflexivity.
  - intros Hoff. rewrite (Screen_WriteChar_off _ _ ch_star Hoff).
    reflexivity.
  - intros Hold Hnew.
    assert (Htwo : sections (snd (App_TaskBall_body sw b)) =
              [cursor_sequence (x b) (y b) ++ [ch_space];
               cursor_sequence (x (tick sw b)) (y (tick sw b)) ++
               [ch_star]]).
    { rewrite Hsec, (Hws _ _ ch_space Hold), (Hws _ _ ch_star Hnew).
      reflexivity. }
    split; [exact Htwo |].
    intros [_ [bs H]]. rewrite Htwo in H. discriminate H.
Qed.

Lemma ball_pass_locking_witness :
  sections (snd (App_TaskBall_body released ball0)) =
    [[27; 91; 49; 50; 59; 51; 57; 72; 32];
     [27; 91; 49; 50; 59; 52; 48; 72; 42]]
  /\ ~ one_acquisition (snd (App_TaskBall_body released ball0))
  /\ sections (snd (App_TaskBall_body released (mkBall 80 12 1 0))) =
       [[27; 91; 49; 50; 59; 56; 48; 72; 32]]
  /\ sections (snd (App_TaskBall_body released (mkBall 81 12 1 0))) = [].
Proof.
  assert (Hold : on_screen (x ball0) (y ball0)).
  { vm_compute. repeat split; discriminate. }
  assert (Hnew : on_screen (x (tick released ball0))
                           (y (tick released ball0))).
  { vm_compute. repeat split; discriminate. }
  destruct (ball_pass_locking released ball0)
    as (_ & _ & _ & _ & _ & _ & _ & _ & H).
  destruct (H Hold Hnew) as [H1 H2].
  split; [rewrite H1; reflexivity | split; [exact H2 |]].
  destruct (ball_pass_locking released (mkBall 80 12 1 0))
    as (_ & _ & _ & _ & H3 & _).
  destruct (ball_pass_locking released (mkBall 81 12 1 0))
    as (_ & _ & _ & _ & H4 & _).
  split; [rewrite H3 | rewrite H4]; reflexivity.
Defined.

(* ################################################################# *)
(** * Several tasks under one lock *)

Lemma update_length {A : Type} i (v : A) l :
  length (Sched.update i v l) = length l.
Proof.
  revert i. induction l as [| a l IH]; intros [| i]; cbn; auto.
Qed.

Lemma nth_error_update_same {A : Type} i (v a : A) l :
  nth_error l i = Some a -> nth_error (Sched.update i v l) i = Some v.
Proof.
  revert i. induction l as [| a' l IH]; intros [| i] H; cbn in *;
    try discriminate; auto.
Qed.

Lemma nth_error_update_other {A : Type} i k (v : A) l :
  i <> k -> nth_error (Sched.update i v l) k = nth_error l k.
Proof.
  revert i k. induction l as [| a l IH]; intros [| i] [| k] H; cbn;
    try reflexivity; try congruence.
  apply IH. congruence.
Qed.

Lemma stream_app t1 t2 :
  Sched.stream (t1 ++ t2) = Sched.stream t1 ++ Sched.stream t2.
Proof.
  induction t1 as [| [i e] t1 IH]; cbn; [reflexivity |].
  destruct e; cbn; rewrite IH; reflexivity.
Qed.

Lemma emit_all_snoc bls bl :
  Sched.emit_all (bls ++ [bl]) = Sched.emit_all bls ++ Sched.emit bl.
Proof.
  unfold Sched.emit_all. rewrite flat_map_app. cbn.
  rewrite app_nil_r. reflexivity.
Qed.

Lemma blocks_of_snoc_same k bls sent :
  Sched.blocks_of k (bls ++ [(k, sent)]) = Sched.blocks_of k bls ++ [sent].
Proof.
  unfold Sched.blocks_of. rewrite filter_app, map_app. cbn.
  rewrite Nat.eqb_refl. reflexivity.
Qed.

Lemma blocks_of_snoc_other i k bls sent :
  i <> k -> Sched.blocks_of k (bls ++ [(i, sent)]) = Sched.blocks_of k bls.
Proof.
  intros H. unfold Sched.blocks_of. rewrite filter_app, map_app. cbn.
  apply Nat.eqb_neq in H. rewrite H. cbn. apply app_nil_r.
Qed.

Lemma run_snoc sch :
  forall c i,
    Sched.run c (sch ++ [i]) =
    match Sched.run c sch with
    | None => None
    | Some (c1, tr) =>
        match Sched.dispatch c1 i with
        | None => None
        | Some (c2, e) => Some (c2, tr ++ [(i, e)])
        end
    end.
Proof.
  induction sch as [| j sch IH]; intros c i; cbn [app Sched.run].
  - destruct (Sched.dispatch c i) as [[c2 e] |]; reflexivity.
  - destruct (Sched.dispatch c j) as [[c1 e1] |]; [| reflexivity].
    rewrite IH.
    destruct (Sched.run c1 sch) as [[c2 tr] |]; [| reflexivity].
    destruct (Sched.dispatch c2 i) as [[c3 e3] |]; reflexivity.
Qed.

Lemma lock_user_head e p :
  lock_user (e :: p) ->
  (e = EvSchedLock
   /\ exists bs q, p = map EvPut bs ++ EvSchedUnlock :: q /\ lock_user q)
  \/ (exists ms, e = EvTimeDly ms /\ lock_user p).
Proof.
  intros H. inversion H; subst.
  - left. split; [reflexivity |]. eauto.
  - right. eauto.
Qed.

(** A task that does not hold the lock stands at a section boundary. *)
Lemma task_ok_idle h bls sent k p0 p :
  (forall i, h = Some i -> i <> k) ->
  Sched.task_ok h bls sent k p0 p <->
  (lock_user p /\ sections p0 = Sched.blocks_of k bls ++ sections p).
Proof.
  intros Hh. unfold Sched.task_ok. destruct h as [i |].
  - specialize (Hh i eq_refl). apply Nat.eqb_neq in Hh. rewrite Hh.
    reflexivity.
  - reflexivity.
Qed.

(** The holder stands inside its section. *)
Lemma task_ok_holder bls sent k p0 p :
  Sched.task_ok (Some k) bls sent k p0 p <->
  exists todo q,
    p = map EvPut todo ++ EvSchedUnlock :: q
    /\ lock_user q
    /\ sections p0 = Sched.blocks_of k bls ++ (sent ++ todo) :: sections q.
Proof.
  unfold Sched.task_ok. rewrite Nat.eqb_refl. reflexivity.
Qed.

Lemma run_inv_start ps :
  Forall lock_user ps -> Sched.run_inv ps (Sched.start ps) [] [] [].
Proof.
  intros Hps. unfold Sched.run_inv, Sched.start; cbn.
  split; [reflexivity | split; [reflexivity | split; [| split]]].
  - intros i H. discriminate H.
  - constructor.
  - intros k p0 Hk. exists p0. split; [exact Hk |].
    split; [| reflexivity].
    rewrite Forall_forall in Hps. apply Hps.
    eapply nth_error_In; exact Hk.
Qed.

(** One dispatch keeps the invariant. *)
Lemma run_inv_dispatch ps0 c tr bls sent i c2 e :
  Sched.run_inv ps0 c tr bls sent ->
  Sched.dispatch c i = Some (c2, e) ->
  exists bls' sent', Sched.run_inv ps0 c2 (tr ++ [(i, e)]) bls' sent'.
Proof.
  intros (Hstream & Hlen & Hvalid & Hbl & Htasks) Hd.
  unfold Sched.dispatch in Hd.
  destruct (nth_error (Sched.progs c) i) as [[| e' rest] |] eqn:Hi;
    try discriminate Hd.
  assert (Hlt : (i < length ps0)%nat).
  { rewrite <- Hlen. apply nth_error_Some. rewrite Hi. discriminate. }
  destruct (nth_error ps0 i) as [p0 |] eqn:Hp0;
    [| apply nth_error_None in Hp0; lia].
  destruct (Htasks i p0 Hp0) as (p & Hp & Hok).
  rewrite Hi in Hp. injection Hp as <-.
  assert (Hothers : forall h' bls' sent',
            (forall k q0 q, k <> i ->
               Sched.task_ok (Sched.holder c) bls sent k q0 q ->
               Sched.task_ok h' bls' sent' k q0 q) ->
            forall k q0, k <> i -> nth_error ps0 k = Some q0 ->
              exists q, nth_error (Sched.update i rest (Sched.progs c)) k
                        = Some q
                        /\ Sched.task_ok h' bls' sent' k q0 q).
  { intros h' bls' sent' Hmove k q0 Hki Hk.
    destruct (Htasks k q0 Hk) as (q & Hq & Hokq).
    exists q. split.
    - rewrite nth_error_update_other by congruence. exact Hq.
    - apply Hmove; assumption. }
  assert (Hself : nth_error (Sched.update i rest (Sched.progs c)) i
                  = Some rest).
  { eapply nth_error_update_same. exact Hi. }
  destruct (Sched.holder c) as [j |] eqn:Hh.
  - (* the lock is held by [j] *)
    destruct (Nat.eq_dec i j) as [Hij | Hij].
    + subst j. apply task_ok_holder in Hok.
      destruct Hok as (todo & q & Hp & Hq & Hsec).
      destruct todo as [| b todo'].
      * (* the holder releases the lock: its section is complete *)
        cbn [map app] in Hp. injection Hp as He Hr. subst e' rest.
        rewrite Nat.eqb_refl in Hd. injection Hd as Hc He. subst c2 e.
        exists (bls ++ [(i, sent)]), [].
        unfold Sched.run_inv. cbn [Sched.holder Sched.progs].
        split; [| split; [| split; [| split]]].
        -- rewrite stream_app, Hstream, emit_all_snoc. cbn.
           rewrite !app_nil_r. reflexivity.
        -- rewrite update_length. exact Hlen.
        -- intros k Hk. discriminate Hk.
        -- apply Forall_app; split; [exact Hbl |].
           repeat constructor. exact Hlt.
        -- intros k q0 Hk. destruct (Nat.eq_dec k i) as [Hki | Hki].
           ++ subst k. rewrite Hp0 in Hk. injection Hk as <-.
              exists q. split; [exact Hself |].
              apply task_ok_idle; [intros k Hk; discriminate Hk |].
              split; [exact Hq |].
              rewrite blocks_of_snoc_same, Hsec, app_nil_r, <- app_assoc.
              reflexivity.
           ++ apply Hothers; try assumption.
              intros k' q0' q' Hk' Hok'.
              apply task_ok_idle; [intros k2 Hk2; discriminate Hk2 |].
              apply task_ok_idle in Hok';
                [| intros k2 Hk2; injection Hk2 as <-; congruence].
              rewrite blocks_of_snoc_other by congruence. exact Hok'.
      * (* the holder sends the next byte of its section *)
        cbn [map app] in Hp. injection Hp as He Hr. subst e' rest.
        injection Hd as Hc He. subst c2 e.
        exists bls, (sent ++ [b]).
        unfold Sched.run_inv. cbn [Sched.holder Sched.progs].
        split; [| split; [| split; [| split]]].
        -- rewrite stream_app, Hstream. cbn.
           rewrite map_app, <- app_assoc. reflexivity.
        -- rewrite update_length. exact Hlen.
        -- intros k Hk. injection Hk as <-. exact Hlt.
        -- exact Hbl.
        -- intros k q0 Hk. destruct (Nat.eq_dec k i) as [Hki | Hki].
           ++ subst k. rewrite Hp0 in Hk. injection Hk as <-.
              exists (map EvPut todo' ++ EvSchedUnlock :: q).
              split; [exact Hself |].
              apply task_ok_holder. exists todo', q.
              split; [reflexivity | split; [exact Hq |]].
              rewrite Hsec, <- app_assoc. reflexivity.
           ++ apply Hothers; try assumption.
              intros k' q0' q' Hk' Hok'.
              apply task_ok_idle;
                [intros k2 Hk2; injection Hk2 as <-; congruence |].
              apply task_ok_idle in Hok';
                [| intros k2 Hk2; injection Hk2 as <-; congruence].
              exact Hok'.
    + (* another task runs while [j] holds the lock *)
      apply task_ok_idle in Hok;
        [| intros k2 Hk2; injection Hk2 as <-; congruence].
      destruct Hok as [Hlu Hsec].
      destruct (lock_user_head _ _ Hlu)
        as [(He & bs & q & Hr & Hq) | (ms & He & Hq)]; subst e'.
      * (* it wants the lock: it waits *)
        discriminate Hd.
      * (* it only delays *)
        injection Hd as Hc He. subst c2 e.
        exists bls, sent.
        unfold Sched.run_inv. cbn [Sched.holder Sched.progs].
        split; [| split; [| split; [| split]]].
        -- rewrite stream_app, Hstream. cbn. rewrite app_nil_r.
           reflexivity.
        -- rewrite update_length. exact Hlen.
        -- intros k Hk. apply Hvalid. exact Hk.
        -- exact Hbl.
        -- intros k q0 Hk. destruct (Nat.eq_dec k i) as [Hki | Hki].
           ++ subst k. rewrite Hp0 in Hk. injection Hk as <-.
              exists rest. split; [exact Hself |].
              apply task_ok_idle;
                [intros k2 Hk2; injection Hk2 as <-; congruence |].
              split; [exact Hq |].
              rewrite Hsec, sections_delay. reflexivity.
           ++ apply Hothers; try assumption.
              intros k' q0' q' Hk' Hok'. exact Hok'.
  - (* the lock is free *)
    apply task_ok_idle in Hok; [| intros k2 Hk2; discriminate Hk2].
    destruct Hok as [Hlu Hsec].
    destruct (lock_user_head _ _ Hlu)
      as [(He & bs & q & Hr & Hq) | (ms & He & Hq)]; subst e'.
    + (* the task takes the lock and enters a section *)
      injection Hd as Hc He. subst c2 e rest.
      exists bls, [].
      unfold Sched.run_inv. cbn [Sched.holder Sched.progs].
      split; [| split; [| split; [| split]]].
      * rewrite stream_app, Hstream. cbn. rewrite !app_nil_r.
        reflexivity.
      * rewrite update_length. exact Hlen.
      * intros k Hk. injection Hk as <-. exact Hlt.
      * exact Hbl.
      * intros k q0 Hk. destruct (Nat.eq_dec k i) as [Hki | Hki].
        -- subst k. rewrite Hp0 in Hk. injection Hk as <-.
           exists (map EvPut bs ++ EvSchedUnlock :: q).
           split; [exact Hself |].
           apply task_ok_holder. exists bs, q.
           split; [reflexivity | split; [exact Hq |]].
           rewrite Hsec, sections_section. reflexivity.
        -- apply Hothers; try assumption.
           intros k' q0' q' Hk' Hok'.
           apply task_ok_idle;
             [intros k2 Hk2; injection Hk2 as <-; congruence |].
           apply task_ok_idle in Hok'; [| intros k2 Hk2; discriminate Hk2].
           exact Hok'.
    + (* the task delays *)
      injection Hd as Hc He. subst c2 e.
      exists bls, sent.
      unfold Sched.run_inv. cbn [Sched.holder Sched.progs].
      split; [| split; [| split; [| split]]].
      * rewrite stream_app, Hstream. cbn. rewrite !app_nil_r.
        reflexivity.
      * rewrite update_length. exact Hlen.
      * intros k Hk. discriminate Hk.
      * exact Hbl.
      * intros k q0 Hk. destruct (Nat.eq_dec k i) as [Hki | Hki].
        -- subst k. rewrite Hp0 in Hk. injection Hk as <-.
           exists rest. split; [exact Hself |].
           apply task_ok_idle; [intros k2 Hk2; discriminate Hk2 |].
           split; [exact Hq |].
           rewrite Hsec, sections_delay. reflexivity.
        -- apply Hothers; try assumption.
           intros k' q0' q' Hk' Hok'. exact Hok'.
Qed.

Lemma run_inv_run ps sch :
  Forall lock_user ps ->
  forall c tr,
    Sched.run (Sched.start ps) sch = Some (c, tr) ->
    exists bls sent, Sched.run_inv ps c tr bls sent.
Proof.
  intros Hps. induction sch as [| i sch IH] using rev_ind;
    intros c tr Hrun.
  - cbn in Hrun. injection Hrun as <- <-.
    exists [], []. apply run_inv_start; exact Hps.
  - rewrite run_snoc in Hrun.
    destruct (Sched.run (Sched.start ps) sch) as [[c1 tr1] |];
      [| discriminate Hrun].
    destruct (Sched.dispatch c1 i) as [[c2 e] |] eqn:Hd;
      [| discriminate Hrun].
    injection Hrun as <- <-.
    destruct (IH c1 tr1 eq_refl) as (bls & sent & Hinv).
    eapply run_inv_dispatch; eassumption.
Qed.

(** C9. Let any number of tasks run programs that touch the terminal
    only inside [OSSchedLock] ... [OSSchedUnlock] sections, as
    [Screen_WriteChar], [Screen_WriteNumber] and the ball task do.
    Whatever the schedule, the byte stream the terminal receives is a
    sequence of whole sections, each sent by one task without a byte of
    another task in between, followed by the part already sent of the
    section of the task that holds the lock, if any.  The sections of
    each task appear in program order and none is lost. *)
Theorem no_torn_writes (ps : list trace) (sch : list Sched.tid)
  (c : Sched.config) (tr : list (Sched.tid * event))
  (Husers : Forall lock_user ps)
  (Hrun : Sched.run (Sched.start ps) sch = Some (c, tr)) :
  exists blocks sent,
    Sched.stream tr =
      Sched.emit_all blocks ++ Sched.pending (Sched.holder c) sent
    /\ Forall (fun bl => (fst bl < length ps)%nat) blocks
    /\ (forall k p0,
          nth_error ps k = Some p0 ->
          Sched.prefix (Sched.blocks_of k blocks) (sections p0))
    /\ (forall i,
          Sched.holder c = Some i ->
          exists p0 todo,
            nth_error ps i = Some p0
            /\ Sched.prefix (Sched.blocks_of i blocks ++ [sent ++ todo])
                            (sections p0))
    /\ (Sched.holder c = None ->
        forall k p0,
          nth_error ps k = Some p0 ->
          exists p, nth_error (Sched.progs c) k = Some p
                    /\ sections p0 = Sched.blocks_of k blocks ++ sections p).
Proof.
  destruct (run_inv_run ps sch Husers c tr Hrun)
    as (bls & sent & Hstream & Hlen & Hvalid & Hbl & Htasks).
  exists bls, sent.
  split; [exact Hstream | split; [exact Hbl | split; [| split]]].
  - intros k p0 Hk. destruct (Htasks k p0 Hk) as (p & _ & Hok).
    destruct (Sched.holder c) as [j |] eqn:Hh.
    + destruct (Nat.eq_dec j k) as [Hjk | Hjk].
      * subst j. apply task_ok_holder in Hok.
        destruct Hok as (todo & q & _ & _ & Hsec).
        exists ((sent ++ todo) :: sections q). exact Hsec.
      * apply task_ok_idle in Hok;
          [| intros k2 Hk2; injection Hk2 as <-; exact Hjk].
        destruct Hok as [_ Hsec]. exists (sections p). exact Hsec.
    + apply task_ok_idle in Hok; [| intros k2 Hk2; discriminate Hk2].
      destruct Hok as [_ Hsec]. exists (sections p). exact Hsec.
  - intros i Hi.
    pose proof (Hvalid i Hi) as Hlt.
    destruct (nth_error ps i) as [p0 |] eqn:Hp0;
      [| apply nth_error_None in Hp0; lia].
    destruct (Htasks i p0 Hp0) as (p & _ & Hok).
    rewrite Hi in Hok. apply task_ok_holder in Hok.
    destruct Hok as (todo & q & _ & _ & Hsec).
    exists p0, todo. split; [reflexivity |].
    exists (sections q). rewrite Hsec, <- app_assoc. reflexivity.
  - intros Hfree k p0 Hk. destruct (Htasks k p0 Hk) as (p & Hp & Hok).
    exists p. split; [exact Hp |].
    rewrite Hfree in Hok.
    apply task_ok_idle in Hok; [| intros k2 Hk2; discriminate Hk2].
    apply Hok.
Qed.

Lemma demo_tasks_lock_users : Forall lock_user demo_tasks.
Proof.
  repeat constructor.
  - apply App_TaskBall_lock_user.
  - apply Screen_WriteNumber_lock_user.
Qed.

Lemma no_torn_writes_witness :
  match Sched.run (Sched.start demo_tasks) demo_schedule with
  | Some (c, tr) =>
      exists blocks sent,
        Sched.stream tr =
          Sched.emit_all blocks ++ Sched.pending (Sched.holder c) sent
        /\ forall k p0,
             nth_error demo_tasks k = Some p0 ->
             Sched.prefix (Sched.blocks_of k blocks) (sections p0)
  | None => False
  end.
Proof.
  destruct (Sched.run (Sched.start demo_tasks) demo_schedule)
    as [[c tr] |] eqn:E.
  - destruct (no_torn_writes demo_tasks demo_schedule c tr
                demo_tasks_lock_users E)
      as (blocks & sent & H1 & _ & H2 & _).
    exists blocks, sent. split; assumption.
  - vm_compute in E. discriminate E.
Defined.

(** A task that wants the lock while another holds it cannot be
    dispatched. *)
Lemma lock_excludes :
  Sched.run (Sched.start demo_tasks) (repeat 0%nat 5 ++ [1%nat]) = None.
Proof. reflexivity. Qed.

(** X15. Two tasks, one write on the screen each, run to the end: the
    terminal receives the bytes of the two writes one after the other, in
    one of the two orders, whatever the schedule. *)
Corollary two_writers_serial x1 y1 c1 x2 y2 c2 sch c tr :
  on_screen x1 y1 -> on_screen x2 y2 ->
  Sched.run (Sched.start [snd (Screen_WriteChar x1 y1 c1);
                          snd (Screen_WriteChar x2 y2 c2)]) sch
    = Some (c, tr) ->
  Sched.progs c = [[]; []] ->
  let w1 := map (pair 0%nat)
              (bytes_of (Screen_MoveCursor x1 y1) ++ [c1 mod 256]) in
  let w2 := map (pair 1%nat)
              (bytes_of (Screen_MoveCursor x2 y2) ++ [c2 mod 256]) in
  Sched.stream tr = w1 ++ w2 \/ Sched.stream tr = w2 ++ w1.
Proof.
  intros H1 H2 Hrun Hend w1 w2.
  assert (Hps : Forall lock_user [snd (Screen_WriteChar x1 y1 c1);
                                  snd (Screen_WriteChar x2 y2 c2)]).
  { repeat constructor; apply Screen_WriteChar_lock_user. }
  destruct (run_inv_run _ sch Hps c tr Hrun)
    as (bls & sent & Hstream & Hlen & Hvalid & Hbl & Htasks).
  destruct (Htasks 0%nat _ eq_refl) as (p & Hp & Hok0).
  destruct (Htasks 1%nat _ eq_refl) as (p' & Hp' & Hok1).
  rewrite Hend in Hp, Hp'. cbn in Hp, Hp'.
  injection Hp as <-. injection Hp' as <-.
  assert (Hfree : Sched.holder c = None).
  { destruct (Sched.holder c) as [[| [| j]] |] eqn:Hh; [| | | reflexivity].
    - apply task_ok_holder in Hok0.
      destruct Hok0 as ([| b todo] & q & Hq & _); discriminate Hq.
    - apply task_ok_holder in Hok1.
      destruct Hok1 as ([| b todo] & q & Hq & _); discriminate Hq.
    - specialize (Hvalid _ eq_refl). cbn in Hvalid. lia. }
  rewrite Hfree in Hok0, Hok1, Hstream.
  apply task_ok_idle in Hok0; [| intros k Hk; discriminate Hk].
  apply task_ok_idle in Hok1; [| intros k Hk; discriminate Hk].
  destruct Hok0 as [_ Hs0]. destruct Hok1 as [_ Hs1].
  rewrite (Screen_WriteChar_section _ _ c1 H1) in Hs0.
  rewrite (Screen_WriteChar_section _ _ c2 H2) in Hs1.
  change [EvSchedUnlock] with (EvSchedUnlock :: []) in Hs0, Hs1.
  rewrite sections_section in Hs0, Hs1.
  cbn [sections sections_from Sched.pending] in Hs0, Hs1, Hstream.
  rewrite ?app_nil_r in Hs0, Hs1, Hstream.
  set (B1 := bytes_of (Screen_MoveCursor x1 y1) ++ [c1 mod 256]) in *.
  set (B2 := bytes_of (Screen_MoveCursor x2 y2) ++ [c2 mod 256]) in *.
  rewrite Hstream. clear Hstream Hrun Htasks Hps Hvalid Hlen Hend.
  assert (Htid : forall i b rest,
            Forall (fun bl : Sched.block => (fst bl < 2)%nat)
                   ((i, b) :: rest) ->
            (i = 0%nat \/ i = 1%nat)
            /\ Forall (fun bl : Sched.block => (fst bl < 2)%nat) rest).
  { intros i b rest H. inversion H; subst. cbn in *. split; [lia | auto]. }
  cbn [length] in Hbl.
  destruct bls as [| [i1 b1] bls]; [discriminate Hs0 |].
  destruct (Htid _ _ _ Hbl) as [[-> | ->] Hbl1];
    (destruct bls as [| [i2 b2] bls];
     [cbn in Hs0, Hs1; try discriminate Hs0; try discriminate Hs1 |]);
    (destruct (Htid _ _ _ Hbl1) as [[-> | ->] Hbl2]);
    (destruct bls as [| [i3 b3] bls];
     [| destruct (Htid _ _ _ Hbl2) as [[-> | ->] _];
        cbn in Hs0, Hs1; try discriminate Hs0; discriminate Hs1]);
    cbn in Hs0, Hs1; try discriminate Hs0; try discriminate Hs1.
  - injection Hs0 as <-. injection Hs1 as <-. left.
    unfold Sched.emit_all, Sched.emit. cbn [flat_map fst snd].
    rewrite app_nil_r. reflexivity.
  - injection Hs0 as <-. injection Hs1 as <-. right.
    unfold Sched.emit_all, Sched.emit. cbn [flat_map fst snd].
    rewrite app_nil_r. reflexivity.
Qed.

(* ################################################################# *)
(** * Further properties of the number fields *)

Lemma bytes_two_digits i b1 b2 :
  two_digits i = [b1; b2] -> b1 = ch_0 + i / 10 /\ b2 = ch_0 + i mod 10.
Proof. unfold two_digits. intros H. injection H as <- <-. auto. Qed.

(** X1. The two bytes [UART_PrintNum] sends for a value in 0..99 are
    decimal digits and give the value back: it is ten times the first
    digit plus the second. *)
Theorem UART_PrintNum_round_trip (i b1 b2 : Z)
  (Hi : 0 <= i <= 99)
  (Hb : bytes_of (UART_PrintNum i) = [b1; b2]) :
  is_digit b1 /\ is_digit b2 /\ i = 10 * (b1 - ch_0) + (b2 - ch_0).
Proof.
  rewrite (UART_PrintNum_two_digits i Hi), bytes_of_puts in Hb.
  apply bytes_two_digits in Hb. destruct Hb as [-> ->].
  unfold is_digit, ch_0. Z.div_mod_to_equations. lia.
Qed.

Lemma UART_PrintNum_round_trip_witness :
  is_digit 52 /\ is_digit 50 /\ 42 = 10 * (52 - ch_0) + (50 - ch_0).
Proof.
  apply (UART_PrintNum_round_trip 42 52 50); [lia | reflexivity].
Defined.

(** The three bytes [UART_PrintNum3] sends for a non-negative [int]. *)
Lemma UART_PrintNum3_nonneg i :
  0 <= i <= CInt.INT_MAX ->
  UART_PrintNum3 i =
    [EvPut ((ch_0 + i / 100) mod 256);
     EvPut (ch_0 + (i mod 100) / 10);
     EvPut (ch_0 + i mod 10)].
Proof.
  intros H. unfold UART_PrintNum3, putU1.
  rewrite (to_unsigned_id i H).
  unfold CInt.srem.
  assert (Hm : 0 <= i mod 100 < 100) by (apply Z.mod_pos_bound; lia).
  rewrite (Z.rem_mod_nonneg i 100) by lia.
  rewrite (Z.rem_mod_nonneg (i mod 100) 10) by lia.
  rewrite (to_unsigned_id (i mod 100)) by (unfold CInt.INT_MAX; lia).
  assert (Hu : (i mod 100) mod 10 = i mod 10)
    by (Z.div_mod_to_equations; lia).
  rewrite Hu.
  assert (Hu10 : 0 <= i mod 10 < 10) by (apply Z.mod_pos_bound; lia).
  rewrite (add_in_range (i mod 10) ch_0)
    by (unfold CInt.in_range, CInt.INT_MIN, CInt.INT_MAX, ch_0; lia).
  unfold CInt.uadd, CInt.udiv, CInt.modulus, ch_0.
  unfold CInt.INT_MAX in H.
  assert (H1 : 0 <= i / 100 < 2 ^ 31) by (Z.div_mod_to_equations; lia).
  assert (H2 : 0 <= (i mod 100) / 10 < 10)
    by (Z.div_mod_to_equations; lia).
  rewrite (Z.mod_small (i / 100 + 48)) by lia.
  rewrite (Z.mod_small ((i mod 100) / 10 + 48) (2 ^ 32)) by lia.
  rewrite (Z.mod_small ((i mod 100) / 10 + 48) 256) by lia.
  rewrite (Z.mod_small (i mod 10 + 48) 256) by lia.
  rewrite (Z.add_comm (i / 100) 48), (Z.add_comm ((i mod 100) / 10) 48),
    (Z.add_comm (i mod 10) 48).
  reflexivity.
Qed.

(** X2. For a value in 0..999 [UART_PrintNum3] sends its three
    zero-padded decimal digits, and the three bytes give the value
    back. *)
Theorem UART_PrintNum3_round_trip (i b1 b2 b3 : Z)
  (Hi : 0 <= i <= 999)
  (Hb : bytes_of (UART_PrintNum3 i) = [b1; b2; b3]) :
  [b1; b2; b3] = three_digits i
  /\ Forall is_digit [b1; b2; b3]
  /\ i = 100 * (b1 - ch_0) + 10 * (b2 - ch_0) + (b3 - ch_0).
Proof.
  assert (H1 : 0 <= i / 100 < 10) by (Z.div_mod_to_equations; lia).
  assert (Hl : [b1; b2; b3] = three_digits i).
  { rewrite <- Hb.
    rewrite UART_PrintNum3_nonneg by (unfold CInt.INT_MAX; lia).
    cbn [bytes_of]. unfold three_digits.
    rewrite (Z.mod_small (ch_0 + i / 100)) by (unfold ch_0; lia).
    reflexivity. }
  split; [exact Hl |].
  unfold three_digits in Hl.
  remember (ch_0 + i / 100) as d1 eqn:E1.
  remember (ch_0 + (i mod 100) / 10) as d2 eqn:E2.
  remember (ch_0 + i mod 10) as d3 eqn:E3.
  injection Hl as -> -> ->. subst d1 d2 d3.
  split.
  - repeat (apply Forall_cons;
            [unfold is_digit, ch_0; Z.div_mod_to_equations; lia |]).
    apply Forall_nil.
  - unfold ch_0. Z.div_mod_to_equations. lia.
Qed.

Lemma UART_PrintNum3_round_trip_witness :
  [53; 49; 50] = three_digits 512
  /\ Forall is_digit [53; 49; 50]
  /\ 512 = 100 * (53 - ch_0) + 10 * (49 - ch_0) + (50 - ch_0).
Proof.
  apply (UART_PrintNum3_round_trip 512 53 49 50); [lia | reflexivity].
Defined.

(** X3. For every non-negative [int] the last two bytes of
    [UART_PrintNum3] are the two digits of the value modulo 100; the
    first byte is the low eight bits of '0' + value / 100, and from 1000
    to 20799 it lies past '9': the hundreds are not reduced. *)
Theorem UART_PrintNum3_overflow (i : Z) (Hi : 0 <= i <= CInt.INT_MAX) :
  bytes_of (UART_PrintNum3 i) =
    ((ch_0 + i / 100) mod 256) :: two_digits (i mod 100)
  /\ Forall is_digit (two_digits (i mod 100))
  /\ (1000 <= i <= 20799 ->
        (ch_0 + i / 100) mod 256 = ch_0 + i / 100
        /\ ~ is_digit ((ch_0 + i / 100) mod 256)).
Proof.
  assert (Hm : 0 <= i mod 100 < 100) by (apply Z.mod_pos_bound; lia).
  split; [| split].
  - rewrite (UART_PrintNum3_nonneg i Hi). cbn [bytes_of].
    unfold two_digits.
    replace ((i mod 100) mod 10) with (i mod 10)
      by (Z.div_mod_to_equations; lia).
    reflexivity.
  - apply two_digits_are_digits. lia.
  - intros Hbig.
    assert (H1 : 10 <= i / 100 <= 207) by (Z.div_mod_to_equations; lia).
    unfold is_digit, ch_0.
    rewrite (Z.mod_small (48 + i / 100)) by lia.
    split; [reflexivity | lia].
Qed.

Lemma UART_PrintNum3_overflow_witness :
  bytes_of (UART_PrintNum3 1234) = 60 :: two_digits 34
  /\ ~ is_digit 60.
Proof.
  assert (Hi : 0 <= 1234 <= CInt.INT_MAX) by (unfold CInt.INT_MAX; lia).
  destruct (UART_PrintNum3_overflow 1234 Hi) as (H1 & _ & H3).
  split; [exact H1 |].
  apply H3. lia.
Defined.

(** X4. Whatever [int] it is given, [UART_PrintNum] sends two bytes and
    the second is a decimal digit: the units digit of the value read as
    a 32-bit unsigned number.  For a negative value that is the units
    digit of value + 2^32, so -1 ends in '5'. *)
Theorem UART_PrintNum_units (i : Z) :
  exists b1,
    UART_PrintNum i = [EvPut b1; EvPut (ch_0 + (i mod 2 ^ 32) mod 10)]
    /\ 0 <= b1 < 256
    /\ is_digit (ch_0 + (i mod 2 ^ 32) mod 10)
    /\ (CInt.INT_MIN <= i < 0 ->
          (i mod 2 ^ 32) mod 10 = (i + 6) mod 10).
Proof.
  unfold UART_PrintNum, putU1, CInt.uadd, CInt.umod, CInt.udiv,
    CInt.to_unsigned, CInt.modulus.
  assert (Hu : 0 <= i mod 2 ^ 32 < 2 ^ 32)
    by (apply Z.mod_pos_bound; lia).
  assert (Hd : 0 <= (i mod 2 ^ 32) mod 10 < 10)
    by (apply Z.mod_pos_bound; lia).
  eexists. split; [| split; [| split]].
  - cbn [app]. f_equal. f_equal. f_equal.
    unfold ch_0.
    rewrite (Z.mod_small ((i mod 2 ^ 32) mod 10 + 48) (2 ^ 32)) by lia.
    rewrite (Z.mod_small ((i mod 2 ^ 32) mod 10 + 48) 256) by lia.
    apply Z.add_comm.
  - apply Z.mod_pos_bound. lia.
  - unfold is_digit, ch_0. lia.
  - unfold CInt.INT_MIN. intros Hneg.
    replace (i mod 2 ^ 32) with (i + 2 ^ 32)
      by (apply Z.mod_unique with (q := -1); lia).
    Z.div_mod_to_equations. lia.
Qed.

Lemma two_digits_inj i j :
  0 <= i <= 99 -> 0 <= j <= 99 -> two_digits i = two_digits j -> i = j.
Proof.
  intros Hi Hj H. symmetry in H. apply bytes_two_digits in H.
  destruct H as [H1 H2]. unfold ch_0 in *.
  Z.div_mod_to_equations. lia.
Qed.

Lemma app_inj_length {A : Type} (l1 l1' l2 l2' : list A) :
  length l1 = length l1' -> l1 ++ l2 = l1' ++ l2' -> l1 = l1' /\ l2 = l2'.
Proof.
  revert l1'. induction l1 as [| a l1 IH]; intros [| a' l1'] Hlen H;
    try discriminate Hlen.
  - auto.
  - cbn in H. injection H as -> H. injection Hlen as Hlen.
    destruct (IH l1' Hlen H) as [-> ->]. auto.
Qed.

Lemma Screen_MoveCursor_digits col row :
  0 <= col <= 99 -> 0 <= row <= 99 ->
  bytes_of (Screen_MoveCursor col row) =
    [ESC; ch_lbracket] ++ two_digits row ++ [ch_semi] ++ two_digits col ++
    [ch_H].
Proof.
  intros Hcol Hrow. unfold Screen_MoveCursor.
  rewrite (UART_PrintNum_two_digits row Hrow).
  rewrite (UART_PrintNum_two_digits col Hcol).
  unfold putU1, two_digits. reflexivity.
Qed.

(** X5. On 0..99 by 0..99 no two positions share a cursor sequence:
    the bytes [Screen_MoveCursor] sends determine the column and the
    row. *)
Theorem Screen_MoveCursor_injective (col row col' row' : Z)
  (Hcol : 0 <= col <= 99) (Hrow : 0 <= row <= 99)
  (Hcol' : 0 <= col' <= 99) (Hrow' : 0 <= row' <= 99)
  (Heq : bytes_of (Screen_MoveCursor col row) =
         bytes_of (Screen_MoveCursor col' row')) :
  col = col' /\ row = row'.
Proof.
  rewrite (Screen_MoveCursor_digits col row Hcol Hrow) in Heq.
  rewrite (Screen_MoveCursor_digits col' row' Hcol' Hrow') in Heq.
  apply app_inv_head in Heq.
  apply app_inj_length in Heq; [| reflexivity].
  destruct Heq as [Hr Heq].
  apply app_inv_head in Heq.
  apply app_inj_length in Heq; [| reflexivity].
  destruct Heq as [Hc _].
  split; apply two_digits_inj; assumption.
Qed.

Lemma Screen_MoveCursor_injective_witness : 12 = 12 /\ 13 = 13.
Proof.
  apply (Screen_MoveCursor_injective 12 13 12 13); try lia. reflexivity.
Defined.

Lemma UART_PrintNum_period i :
  0 <= i -> i + 2560 <= CInt.INT_MAX ->
  UART_PrintNum (i + 2560) = UART_PrintNum i.
Proof.
  intros Hlo Hhi.
  rewrite (UART_PrintNum_nonneg (i + 2560)) by lia.
  rewrite (UART_PrintNum_nonneg i) by lia.
  replace ((i + 2560) / 10) with (i / 10 + 256)
    by (Z.div_mod_to_equations; lia).
  replace ((i + 2560) mod 10) with (i mod 10)
    by (Z.div_mod_to_equations; lia).
  replace (ch_0 + (i / 10 + 256)) with (ch_0 + i / 10 + 1 * 256) by lia.
  rewrite Z.mod_add by lia. reflexivity.
Qed.

(** X6. The two-byte field repeats with period 2560: a number and the
    number plus 2560 are written with the same bytes, and so are a
    column or row and the same plus 2560 in a cursor move.  Outside 0..99
    the bytes no longer determine the value. *)
Theorem field_period (col row number : Z)
  (Hcol : 0 <= col) (Hcol' : col + 2560 <= CInt.INT_MAX)
  (Hrow : 0 <= row) (Hrow' : row + 2560 <= CInt.INT_MAX)
  (Hnum : 0 <= number) (Hnum' : number + 2560 <= CInt.INT_MAX) :
  Screen_MoveCursor (col + 2560) row = Screen_MoveCursor col row
  /\ Screen_MoveCursor col (row + 2560) = Screen_MoveCursor col row
  /\ snd (Screen_WriteNumber col row (number + 2560)) =
     snd (Screen_WriteNumber col row number).
Proof.
  split; [| split].
  - unfold Screen_MoveCursor.
    rewrite (UART_PrintNum_period col Hcol Hcol'). reflexivity.
  - unfold Screen_MoveCursor.
    rewrite (UART_PrintNum_period row Hrow Hrow'). reflexivity.
  - unfold Screen_WriteNumber.
    rewrite (UART_PrintNum_period number Hnum Hnum'). reflexivity.
Qed.

Lemma field_period_witness :
  Screen_MoveCursor (7 + 2560) 3 = Screen_MoveCursor 7 3
  /\ Screen_MoveCursor 7 (3 + 2560) = Screen_MoveCursor 7 3
  /\ snd (Screen_WriteNumber 7 3 (7 + 2560)) =
     snd (Screen_WriteNumber 7 3 7).
Proof.
  apply (field_period 7 3 7); unfold CInt.INT_MAX; lia.
Defined.

(* ################################################################# *)
(** * Further properties of the ball task *)

Lemma loop_trace_cons sw rest b :
  snd (App_TaskBall_loop (sw :: rest) b) =
  snd (App_TaskBall_body sw b) ++ snd (App_TaskBall_loop rest (tick sw b)).
Proof.
  cbn [App_TaskBall_loop]. unfold tick.
  destruct (App_TaskBall_body sw b) as [b1 t1]. cbn [fst snd].
  destruct (App_TaskBall_loop rest b1) as [b2 t2]. reflexivity.
Qed.

Lemma App_TaskBall_trace inputs :
  snd (App_TaskBall inputs) =
  snd (Screen_WriteChar BALL_X_START BALL_Y_START ch_star) ++
  snd (App_TaskBall_loop inputs ball0).
Proof.
  unfold App_TaskBall, ball0.
  change (snd (Screen_WriteChar BALL_X_START BALL_Y_START ch_star))
    with (snd App_TaskBall_init).
  destruct App_TaskBall_init as [b0 t0]. cbn [fst snd].
  destruct (App_TaskBall_loop inputs b0) as [b1 t1]. reflexivity.
Qed.

Lemma ball_after_cons sw rest b :
  ball_after (sw :: rest) b = ball_after rest (tick sw b).
Proof. unfold ball_after. apply loop_cons. Qed.

Lemma lock_user_bytes p :
  lock_user p -> bytes_of p = concat (sections p).
Proof.
  intros Hlu. induction Hlu as [| bs p Hp IH | ms p Hp IH].
  - reflexivity.
  - rewrite sections_section. cbn [bytes_of concat].
    rewrite bytes_of_app, bytes_of_puts. cbn [bytes_of].
    rewrite IH. reflexivity.
  - rewrite sections_delay. cbn [bytes_of]. exact IH.
Qed.

(** X7. Whatever the switches do, the ball task sends every byte while
    it holds the lock, and holds no lock when a pass ends: the lock is
    never left taken and no byte is ever sent outside a hold. *)
Theorem App_TaskBall_lock_discipline (inputs : list switches) :
  puts_locked false (snd (App_TaskBall inputs)) = true
  /\ held_after false (snd (App_TaskBall inputs)) = false
  /\ bytes_of (snd (App_TaskBall inputs)) =
       concat (sections (snd (App_TaskBall inputs))).
Proof.
  pose proof (App_TaskBall_lock_user inputs) as Hlu.
  destruct (lock_user_puts_locked _ Hlu []) as [H1 H2].
  rewrite app_nil_r in H1, H2.
  split; [exact H1 | split; [exact H2 |]].
  apply lock_user_bytes; exact Hlu.
Qed.

Lemma tick_released_right b :
  velocity b = (1, 0) ->
  CInt.in_range (x b + 1) -> CInt.in_range (y b) ->
  tick released b = {| x := x b + 1; y := y b; x_delta := 1; y_delta := 0 |}.
Proof.
  intros Hv Hx Hy.
  assert (Hdx : x_delta b = 1).
  { change (x_delta b) with (fst (velocity b)). rewrite Hv. reflexivity. }
  assert (Hdy : y_delta b = 0).
  { change (y_delta b) with (snd (velocity b)). rewrite Hv. reflexivity. }
  rewrite tick_unfold, steer_released. unfold advance.
  rewrite Hdx, Hdy.
  rewrite (add_in_range (x b) 1 Hx).
  rewrite (add_in_range (y b) 0) by (rewrite Z.add_0_r; exact Hy).
  rewrite Z.add_0_r. reflexivity.
Qed.

Lemma body_off_screen sw b :
  ~ on_screen (x b) (y b) ->
  ~ on_screen (x (tick sw b)) (y (tick sw b)) ->
  snd (App_TaskBall_body sw b) = [EvTimeDly 75].
Proof.
  intros Hold Hnew. rewrite App_TaskBall_body_trace.
  rewrite (Screen_WriteChar_off _ _ ch_space Hold).
  rewrite (Screen_WriteChar_off _ _ ch_star Hnew). reflexivity.
Qed.

Lemma ball_gone_aux n :
  forall b,
    velocity b = (1, 0) ->
    X_MAX < x b -> x b + Z.of_nat n <= CInt.INT_MAX ->
    CInt.in_range (y b) ->
    snd (App_TaskBall_loop (repeat released n) b) =
      repeat (EvTimeDly 75) n.
Proof.
  induction n as [| n IH]; intros b Hv Hout Hhi Hy; [reflexivity |].
  rewrite Nat2Z.inj_succ in Hhi.
  assert (Hxmax : X_MAX = 80) by reflexivity.
  assert (Ht : tick released b =
               {| x := x b + 1; y := y b; x_delta := 1; y_delta := 0 |}).
  { apply tick_released_right; [exact Hv | | exact Hy].
    unfold CInt.in_range, CInt.INT_MIN. lia. }
  cbn [repeat]. rewrite loop_trace_cons.
  rewrite body_off_screen.
  - rewrite Ht. rewrite IH.
    + reflexivity.
    + reflexivity.
    + cbn [x]. lia.
    + cbn [x]. lia.
    + exact Hy.
  - unfold on_screen. lia.
  - rewrite Ht. cbn [x y]. unfold on_screen. lia.
Qed.

(** X8. A ball that has left the screen on the right and is not steered
    sends nothing any more: each further pass is the 75 ms delay alone,
    with no lock taken and no byte sent, for as long as the column fits
    an [int]. *)
Theorem ball_gone (n : nat) (b : ball)
  (Hv : velocity b = (1, 0))
  (Hout : X_MAX < x b)
  (Hhi : x b + Z.of_nat n <= CInt.INT_MAX)
  (Hy : CInt.in_range (y b)) :
  snd (App_TaskBall_loop (repeat released n) b) = repeat (EvTimeDly 75) n
  /\ bytes_of (snd (App_TaskBall_loop (repeat released n) b)) = []
  /\ sections (snd (App_TaskBall_loop (repeat released n) b)) = [].
Proof.
  rewrite (ball_gone_aux n b Hv Hout Hhi Hy).
  split; [reflexivity |].
  clear. induction n as [| n [IH1 IH2]]; split; try reflexivity.
  - cbn [repeat bytes_of]. exact IH1.
  - cbn [repeat]. rewrite sections_delay. exact IH2.
Qed.

Lemma ball_gone_witness :
  bytes_of (snd (App_TaskBall_loop (repeat released 50)
                   (mkBall 81 12 1 0))) = [].
Proof.
  assert (Hv : velocity (mkBall 81 12 1 0) = (1, 0)) by reflexivity.
  assert (Hout : X_MAX < x (mkBall 81 12 1 0)) by reflexivity.
  assert (Hhi : x (mkBall 81 12 1 0) + Z.of_nat 50 <= CInt.INT_MAX)
    by (vm_compute; discriminate).
  assert (Hy : CInt.in_range (y (mkBall 81 12 1 0)))
    by (vm_compute; split; discriminate).
  destruct (ball_gone 50 (mkBall 81 12 1 0) Hv Hout Hhi Hy) as (_ & H & _).
  exact H.
Defined.

Lemma tick_axis sw b :
  axis_aligned (velocity b) -> axis_aligned (velocity (tick sw b)).
Proof.
  intros H. rewrite tick_unfold, advance_velocity.
  apply axis_aligned_steer; exact H.
Qed.

Lemma axis_aligned_unit v :
  axis_aligned v ->
  Z.abs (fst v) + Z.abs (snd v) = 1
  /\ -1 <= fst v <= 1 /\ -1 <= snd v <= 1.
Proof.
  intros [H | [H | [H | H]]]; subst v; cbn; lia.
Qed.

(** The step of one pass, for a ball with room on every side. *)
Lemma tick_step sw b :
  axis_aligned (velocity b) ->
  CInt.INT_MIN < x b < CInt.INT_MAX ->
  CInt.INT_MIN < y b < CInt.INT_MAX ->
  x (tick sw b) = x b + fst (velocity (tick sw b))
  /\ y (tick sw b) = y b + snd (velocity (tick sw b)).
Proof.
  intros Hax Hx Hy.
  pose proof (tick_axis sw b Hax) as Hax'.
  destruct (axis_aligned_unit _ Hax') as (_ & Hvx & Hvy).
  assert (Hpos : position (tick sw b) =
                 Table.move (position b) (velocity (tick sw b))).
  { apply tick_position.
    - change (x_delta (steer sw b)) with (fst (velocity (tick sw b))).
      unfold CInt.in_range. lia.
    - change (y_delta (steer sw b)) with (snd (velocity (tick sw b))).
      unfold CInt.in_range. lia. }
  split.
  - change (x (tick sw b)) with (fst (position (tick sw b))).
    rewrite Hpos. reflexivity.
  - change (y (tick sw b)) with (snd (position (tick sw b))).
    rewrite Hpos. reflexivity.
Qed.

(** X9. The ball never rests and never moves diagonally: in every pass
    it moves by exactly one cell, along one axis (for an axis-aligned
    velocity, as the task always has, and a position that is not at the
    edge of the [int] range). *)
Theorem tick_unit_step (sw : switches) (b : ball)
  (Hax : axis_aligned (velocity b))
  (Hx : CInt.INT_MIN < x b < CInt.INT_MAX)
  (Hy : CInt.INT_MIN < y b < CInt.INT_MAX) :
  Z.abs (x (tick sw b) - x b) + Z.abs (y (tick sw b) - y b) = 1
  /\ (x (tick sw b) = x b \/ y (tick sw b) = y b)
  /\ position (tick sw b) <> position b.
Proof.
  destruct (tick_step sw b Hax Hx Hy) as [Ex Ey].
  pose proof (tick_axis sw b Hax) as Hax'.
  destruct (axis_aligned_unit _ Hax') as (Hone & Hvx & Hvy).
  split; [lia | split; [lia |]].
  intros H.
  assert (H1 : x (tick sw b) = x b).
  { change (x (tick sw b)) with (fst (position (tick sw b))).
    rewrite H. reflexivity. }
  assert (H2 : y (tick sw b) = y b).
  { change (y (tick sw b)) with (snd (position (tick sw b))).
    rewrite H. reflexivity. }
  lia.
Qed.

Lemma tick_unit_step_witness :
  Z.abs (x (tick (mkSwitches 0 1 0 0) ball0) - x ball0)
  + Z.abs (y (tick (mkSwitches 0 1 0 0) ball0) - y ball0) = 1.
Proof.
  assert (Hax : axis_aligned (velocity ball0)) by (left; reflexivity).
  assert (Hx : CInt.INT_MIN < x ball0 < CInt.INT_MAX)
    by (vm_compute; split; reflexivity).
  assert (Hy : CInt.INT_MIN < y ball0 < CInt.INT_MAX)
    by (vm_compute; split; reflexivity).
  destruct (tick_unit_step (mkSwitches 0 1 0 0) ball0 Hax Hx Hy)
    as (H & _).
  exact H.
Defined.

(** How far the ball can be after the passes of [inputs]. *)
Lemma ball_after_distance inputs :
  forall b,
    axis_aligned (velocity b) ->
    CInt.INT_MIN + Z.of_nat (length inputs) < x b
      < CInt.INT_MAX - Z.of_nat (length inputs) ->
    CInt.INT_MIN + Z.of_nat (length inputs) < y b
      < CInt.INT_MAX - Z.of_nat (length inputs) ->
    Z.abs (x (ball_after inputs b) - x b)
    + Z.abs (y (ball_after inputs b) - y b) <= Z.of_nat (length inputs)
    /\ (x (ball_after inputs b) + y (ball_after inputs b)
        - x b - y b - Z.of_nat (length inputs)) mod 2 = 0.
Proof.
  induction inputs as [| sw rest IH]; intros b Hax Hx Hy.
  - unfold ball_after. cbn. split; [lia |].
    replace (x b + y b - x b - y b - 0) with 0 by lia. reflexivity.
  - rewrite ball_after_cons. cbn [length] in *.
    rewrite Nat2Z.inj_succ in *.
    destruct (tick_step sw b Hax) as [Ex Ey]; [lia | lia |].
    pose proof (tick_axis sw b Hax) as Hax'.
    destruct (axis_aligned_unit _ Hax') as (Hone & Hvx & Hvy).
    destruct (IH (tick sw b) Hax') as [Hd Hp]; [lia | lia |].
    split; [lia |].
    revert Hp. generalize (x (ball_after rest (tick sw b))).
    generalize (y (ball_after rest (tick sw b))).
    intros ya xa Hp. Z.div_mod_to_equations. lia.
Qed.

(** X10. After [n] passes the ball is at most [n] cells from where it
    started, counted along the axes, whatever the switches did, and the
    distance has the parity of [n]: x + y - 51 - n is even. *)
Theorem ball_distance (inputs : list switches)
  (Hlen : Z.of_nat (length inputs) < CInt.INT_MAX - BALL_X_START) :
  Z.abs (x (ball_after inputs ball0) - BALL_X_START)
  + Z.abs (y (ball_after inputs ball0) - BALL_Y_START)
    <= Z.of_nat (length inputs)
  /\ (x (ball_after inputs ball0) + y (ball_after inputs ball0)
      - BALL_X_START - BALL_Y_START - Z.of_nat (length inputs)) mod 2 = 0.
Proof.
  assert (Hx0 : BALL_X_START = 39) by reflexivity.
  assert (Hy0 : BALL_Y_START = 12) by reflexivity.
  assert (Hmax : CInt.INT_MAX = 2147483647) by reflexivity.
  assert (Hmin : CInt.INT_MIN = -2147483648) by reflexivity.
  apply (ball_after_distance inputs ball0).
  - left; reflexivity.
  - change (x ball0) with BALL_X_START. lia.
  - change (y ball0) with BALL_Y_START. lia.
Qed.

Lemma ball_distance_witness :
  Z.abs (x (ball_after [mkSwitches 1 0 0 0; released; mkSwitches 0 0 0 1]
                       ball0) - BALL_X_START)
  + Z.abs (y (ball_after [mkSwitches 1 0 0 0; released; mkSwitches 0 0 0 1]
                         ball0) - BALL_Y_START) <= 3.
Proof.
  assert (Hlen : Z.of_nat (length [mkSwitches 1 0 0 0; released;
                                   mkSwitches 0 0 0 1])
                 < CInt.INT_MAX - BALL_X_START)
    by (vm_compute; reflexivity).
  destruct (ball_distance _ Hlen) as [H _]. exact H.
Defined.





Lemma steer_tick_velocity sw b :
  velocity (steer sw (tick sw b)) = velocity (steer sw b).
Proof.
  rewrite (steer_velocity sw (tick sw b)).
  rewrite tick_unfold, advance_velocity.
  rewrite (steer_velocity sw b).
  destruct (c_true (RIGHT_UP_SW sw)); [reflexivity |].
  destruct (c_true (RIGHT_DOWN_SW sw)); [reflexivity |].
  destruct (c_true (LEFT_DOWN_SW sw)); [reflexivity |].
  destruct (c_true (LEFT_UP_SW sw)); reflexivity.
Qed.

Lemma hold_line sw n :
  forall b,
    axis_aligned (velocity b) ->
    CInt.INT_MIN + Z.of_nat n < x b < CInt.INT_MAX - Z.of_nat n ->
    CInt.INT_MIN + Z.of_nat n < y b < CInt.INT_MAX - Z.of_nat n ->
    position (ball_after (repeat sw n) b) =
      (x b + Z.of_nat n * fst (velocity (steer sw b)),
       y b + Z.of_nat n * snd (velocity (steer sw b))).
Proof.
  induction n as [| n IH]; intros b Hax Hx Hy.
  - unfold ball_after, position. cbn. f_equal; lia.
  - cbn [repeat]. rewrite ball_after_cons.
    rewrite Nat2Z.inj_succ in *.
    destruct (tick_step sw b Hax) as [Ex Ey]; [lia | lia |].
    pose proof (tick_axis sw b Hax) as Hax'.
    destruct (axis_aligned_unit _ Hax') as (Hone & Hvx & Hvy).
    rewrite (IH (tick sw b) Hax') by lia.
    rewrite steer_tick_velocity, Ex, Ey.
    change (velocity (tick sw b)) with (velocity (steer sw b)).
    f_equal; ring.
Qed.

(** X12. While the same switches are held the ball runs in a straight
    line: after [n] passes with the same sample it is [n] cells from its
    position, in the direction the first asserted switch gives, or in
    its own direction if none is asserted. *)
Theorem held_switches_line (sw : switches) (n : nat) (b : ball)
  (Hax : axis_aligned (velocity b))
  (Hx : CInt.INT_MIN + Z.of_nat n < x b < CInt.INT_MAX - Z.of_nat n)
  (Hy : CInt.INT_MIN + Z.of_nat n < y b < CInt.INT_MAX - Z.of_nat n) :
  position (ball_after (repeat sw n) b) =
    (x b + Z.of_nat n * fst (velocity (steer sw b)),
     y b + Z.of_nat n * snd (velocity (steer sw b)))
  /\ velocity (steer sw b) =
       (if c_true (RIGHT_UP_SW sw) then (0, 1)
        else if c_true (RIGHT_DOWN_SW sw) then (0, -1)
        else if c_true (LEFT_DOWN_SW sw) then (-1, 0)
        else if c_true (LEFT_UP_SW sw) then (1, 0)
        else velocity b).
Proof.
  split; [apply hold_line; assumption | apply steer_velocity].
Qed.

Lemma held_switches_line_witness :
  position (ball_after (repeat (mkSwitches 0 0 0 1) 30) ball0) = (9, 12).
Proof.
  assert (Hax : axis_aligned (velocity ball0)) by (left; reflexivity).
  assert (Hx : CInt.INT_MIN + Z.of_nat 30 < x ball0
               < CInt.INT_MAX - Z.of_nat 30)
    by (vm_compute; split; reflexivity).
  assert (Hy : CInt.INT_MIN + Z.of_nat 30 < y ball0
               < CInt.INT_MAX - Z.of_nat 30)
    by (vm_compute; split; reflexivity).
  destruct (held_switches_line (mkSwitches 0 0 0 1) 30 ball0 Hax Hx Hy)
    as [H _].
  rewrite H. reflexivity.
Defined.

Lemma loop_sections inputs :
  forall b,
    sections (snd (App_TaskBall_loop inputs b)) =
    frames (position b) (ball_states inputs b).
Proof.
  induction inputs as [| sw rest IH]; intros b; [reflexivity |].
  rewrite loop_trace_cons.
  rewrite (lock_user_sections_app _ _ (App_TaskBall_body_lock_user sw b)).
  rewrite IH. cbn [ball_states frames].
  rewrite App_TaskBall_body_trace. unfold OSTimeDlyHMSM. cbn [app].
  rewrite sections_delay.
  rewrite (lock_user_sections_app _ _
             (Screen_WriteChar_lock_user (x b) (y b) ch_space)).
  rewrite !sections_WriteChar, <- app_assoc. reflexivity.
Qed.

(** X13. What the ball task sends, in full: the star at the start
    position, then for every pass a blank at the position of the last
    star and a star at the new position, each in a lock section of its
    own, a write off the screen being dropped.  Every star but the last
    is thus blanked by the next pass, at the same position. *)
Theorem App_TaskBall_sections (inputs : list switches) :
  sections (snd (App_TaskBall inputs)) =
    write_section BALL_X_START BALL_Y_START ch_star ++
    frames (BALL_X_START, BALL_Y_START) (ball_states inputs ball0)
  /\ bytes_of (snd (App_TaskBall inputs)) =
       concat (write_section BALL_X_START BALL_Y_START ch_star ++
               frames (BALL_X_START, BALL_Y_START)
                      (ball_states inputs ball0)).
Proof.
  assert (H : sections (snd (App_TaskBall inputs)) =
              write_section BALL_X_START BALL_Y_START ch_star ++
              frames (BALL_X_START, BALL_Y_START)
                     (ball_states inputs ball0)).
  { rewrite App_TaskBall_trace.
    rewrite (lock_user_sections_app _ _
               (Screen_WriteChar_lock_user BALL_X_START BALL_Y_START
                                           ch_star)).
    rewrite sections_WriteChar, loop_sections. reflexivity. }
  split; [exact H |].
  rewrite <- H. apply lock_user_bytes, App_TaskBall_lock_user.
Qed.

(* ################################################################# *)
(** * The statistics display and the screen set-up *)

Lemma UART_PrintNum3_three_bytes i :
  exists b1 b2 b3, UART_PrintNum3 i = [EvPut b1; EvPut b2; EvPut b3].
Proof. unfold UART_PrintNum3, putU1. cbn [app]. eauto. Qed.

Lemma UART_PrintNum_puts i :
  UART_PrintNum i = map EvPut (bytes_of (UART_PrintNum i)).
Proof.
  destruct (UART_PrintNum_two_bytes i) as (b1 & b2 & ->). reflexivity.
Qed.

Lemma UART_PrintNum3_puts i :
  UART_PrintNum3 i = map EvPut (bytes_of (UART_PrintNum3 i)).
Proof.
  destruct (UART_PrintNum3_three_bytes i) as (b1 & b2 & b3 & ->).
  reflexivity.
Qed.

(** X14. The statistics display of the start task is written in a
    single hold of the lock: its four cursor moves and four numbers, 42
    bytes for any four values, form one lock section, so the four lines
    are never torn by another lock user. *)
Theorem App_TaskStart_stats_atomic (cpu qty free used : Z) :
  App_TaskStart_stats cpu qty free used =
    EvSchedLock ::
    map EvPut (bytes_of (Screen_MoveCursor 40 2) ++
               bytes_of (UART_PrintNum cpu) ++
               bytes_of (Screen_MoveCursor 40 3) ++
               bytes_of (UART_PrintNum qty) ++
               bytes_of (Screen_MoveCursor 40 4) ++
               bytes_of (UART_PrintNum3 free) ++
               bytes_of (Screen_MoveCursor 40 5) ++
               bytes_of (UART_PrintNum3 used)) ++
    [EvSchedUnlock]
  /\ one_acquisition (App_TaskStart_stats cpu qty free used)
  /\ lock_user (App_TaskStart_stats cpu qty free used)
  /\ length (bytes_of (App_TaskStart_stats cpu qty free used)) = 42%nat.
Proof.
  assert (Hshape : App_TaskStart_stats cpu qty free used =
    EvSchedLock ::
    map EvPut (bytes_of (Screen_MoveCursor 40 2) ++
               bytes_of (UART_PrintNum cpu) ++
               bytes_of (Screen_MoveCursor 40 3) ++
               bytes_of (UART_PrintNum qty) ++
               bytes_of (Screen_MoveCursor 40 4) ++
               bytes_of (UART_PrintNum3 free) ++
               bytes_of (Screen_MoveCursor 40 5) ++
               bytes_of (UART_PrintNum3 used)) ++
    [EvSchedUnlock]).
  { unfold App_TaskStart_stats, OSSchedLock, OSSchedUnlock.
    rewrite !map_app.
    rewrite <- !Screen_MoveCursor_puts, <- !UART_PrintNum_puts,
      <- !UART_PrintNum3_puts.
    cbn [app]. rewrite <- !app_assoc. reflexivity. }
  split; [exact Hshape |].
  rewrite Hshape. change [EvSchedUnlock] with (EvSchedUnlock :: []).
  split; [| split].
  - split.
    + cbn [puts_locked]. rewrite puts_locked_puts. reflexivity.
    + rewrite sections_section. eexists. reflexivity.
  - apply lu_section, lu_done.
  - cbn [bytes_of]. rewrite bytes_of_app, bytes_of_puts. cbn [bytes_of].
    rewrite app_nil_r.
    destruct (UART_PrintNum_two_bytes cpu) as (a1 & a2 & ->).
    destruct (UART_PrintNum_two_bytes qty) as (q1 & q2 & ->).
    destruct (UART_PrintNum3_three_bytes free) as (f1 & f2 & f3 & ->).
    destruct (UART_PrintNum3_three_bytes used) as (u1 & u2 & u3 & ->).
    reflexivity.
Qed.

(** The screen set-up sends hide-cursor, clear-screen, hide-cursor
    -- ESC [ ? 2 5 l, ESC c, ESC [ ? 2 5 l -- and takes no lock for it;
    [Screen_OnCursor] differs from [Screen_OffCursor] in its last byte
    alone, 'h' for 'l'. *)
Lemma Screen_Init_sequence :
  Screen_Init =
    map EvPut [27; 91; 63; 50; 53; 108; 27; 99; 27; 91; 63; 50; 53; 108]
  /\ Screen_Init = Screen_OffCursor ++ Screen_Clear ++ Screen_OffCursor
  /\ sections Screen_Init = []
  /\ puts_locked false Screen_Init = false
  /\ removelast Screen_OnCursor = removelast Screen_OffCursor
  /\ last Screen_OnCursor EvSchedLock = EvPut 104
  /\ last Screen_OffCursor EvSchedLock = EvPut 108.
Proof. repeat split; reflexivity. Qed.

(* ################################################################# *)
(** * Further properties of the lock *)

Lemma two_writers_serial_witness :
  match Sched.run (Sched.start [snd (Screen_WriteChar 39 12 ch_star);
                                snd (Screen_WriteChar 3 3 ch_0)])
                  (repeat 1%nat 11 ++ repeat 0%nat 11) with
  | Some (c, tr) =>
      Sched.stream tr =
        map (pair 1%nat) (bytes_of (Screen_MoveCursor 3 3) ++ [ch_0 mod 256])
        ++ map (pair 0%nat)
               (bytes_of (Screen_MoveCursor 39 12) ++ [ch_star mod 256])
  | None => False
  end.
Proof.
  destruct (Sched.run (Sched.start [snd (Screen_WriteChar 39 12 ch_star);
                                    snd (Screen_WriteChar 3 3 ch_0)])
                      (repeat 1%nat 11 ++ repeat 0%nat 11))
    as [[c tr] |] eqn:E.
  - assert (H1 : on_screen 39 12) by screen_bounds.
    assert (H2 : on_screen 3 3) by screen_bounds.
    assert (Hend : Sched.progs c = [[]; []]).
    { vm_compute in E. injection E as <- _. reflexivity. }
    destruct (two_writers_serial 39 12 ch_star 3 3 ch_0 _ c tr H1 H2 E Hend)
      as [H | H].
    + exfalso. vm_compute in E. injection E as _ <-.
      vm_compute in H. discriminate H.
    + exact H.
  - vm_compute in E. discriminate E.
Defined.

(** X16. A system of lock users cannot get stuck: after any run, either
    every task has finished and the lock is free, or some task can be
    dispatched; and the task that holds the lock can always go on, with
    a byte of its section or with the release. *)
Theorem lock_users_never_deadlock (ps : list trace)
  (sch : list Sched.tid) (c : Sched.config) (tr : list (Sched.tid * event))
  (Husers : Forall lock_user ps)
  (Hrun : Sched.run (Sched.start ps) sch = Some (c, tr)) :
  ((Forall (fun p => p = []) (Sched.progs c) /\ Sched.holder c = None)
   \/ exists i c' e, Sched.dispatch c i = Some (c', e))
  /\ (forall i, Sched.holder c = Some i ->
        exists c' e, Sched.dispatch c i = Some (c', e)
                     /\ e <> EvSchedLock).
Proof.
  destruct (run_inv_run ps sch Husers c tr Hrun)
    as (bls & sent & Hstream & Hlen & Hvalid & Hbl & Htasks).
  clear Hstream Hbl Hrun.
  assert (Hholder : forall i, Sched.holder c = Some i ->
            exists c' e, Sched.dispatch c i = Some (c', e)
                         /\ e <> EvSchedLock).
  { intros i Hi. pose proof (Hvalid i Hi) as Hlt.
    destruct (nth_error ps i) as [p0 |] eqn:Hp0;
      [| apply nth_error_None in Hp0; lia].
    destruct (Htasks i p0 Hp0) as (p & Hp & Hok).
    rewrite Hi in Hok. apply task_ok_holder in Hok.
    destruct Hok as (todo & q & -> & _ & _).
    unfold Sched.dispatch. rewrite Hp, Hi.
    destruct todo as [| b todo]; cbn [map app].
    - rewrite Nat.eqb_refl. eexists _, _. split; [reflexivity |].
      discriminate.
    - eexists _, _. split; [reflexivity |]. discriminate. }
  split; [| exact Hholder].
  destruct (Sched.holder c) as [i |] eqn:Hh.
  - right. destruct (Hholder i eq_refl) as (c' & e & Hd & _).
    exists i, c', e. exact Hd.
  - assert (Hdec : forall p : trace, {p = []} + {p <> []}).
    { intros [| e p]; [left; reflexivity | right; discriminate]. }
    destruct (Forall_Exists_dec (fun p : trace => p = []) Hdec
                (Sched.progs c)) as [Hall | Hex].
    + left. split; [exact Hall | reflexivity].
    + right. apply Exists_exists in Hex.
      destruct Hex as (p & Hin & Hne).
      apply In_nth_error in Hin. destruct Hin as [k Hk].
      assert (Hlt : (k < length ps)%nat).
      { rewrite <- Hlen. apply nth_error_Some. rewrite Hk. discriminate. }
      destruct (nth_error ps k) as [p0 |] eqn:Hp0;
        [| apply nth_error_None in Hp0; lia].
      destruct (Htasks k p0 Hp0) as (p' & Hp' & Hok).
      rewrite Hk in Hp'. injection Hp' as <-.
      apply task_ok_idle in Hok; [| intros j Hj; discriminate Hj].
      destruct Hok as [Hlu _].
      destruct p as [| e rest]; [contradiction Hne; reflexivity |].
      exists k. unfold Sched.dispatch. rewrite Hk, Hh.
      destruct (lock_user_head _ _ Hlu)
        as [(-> & _) | (ms & -> & _)]; eexists _, _; reflexivity.
Qed.

Lemma lock_users_never_deadlock_witness :
  match Sched.run (Sched.start demo_tasks) (repeat 0%nat 5) with
  | Some (c, tr) =>
      exists c' e, Sched.dispatch c 0%nat = Some (c', e)
                   /\ e <> EvSchedLock
  | None => False
  end.
Proof.
  destruct (Sched.run (Sched.start demo_tasks) (repeat 0%nat 5))
    as [[c tr] |] eqn:E.
  - destruct (lock_users_never_deadlock demo_tasks (repeat 0%nat 5) c tr
                demo_tasks_lock_users E) as [_ H].
    apply H. vm_compute in E. injection E as <- _. reflexivity.
  - vm_compute in E. discriminate E.
Defined.

(** X17. A pass of the ball task sends nine bytes for each of its two
    writes that falls on the screen and none for one that does not: at
    most eighteen bytes per pass, and exactly eighteen while the ball
    stays on the screen. *)
Theorem ball_pass_bytes (sw : switches) (b : ball) :
  length (bytes_of (snd (App_TaskBall_body sw b))) =
    ((if off_screen (x b) (y b) then 0 else 9)
     + (if off_screen (x (tick sw b)) (y (tick sw b)) then 0 else 9))%nat
  /\ (length (bytes_of (snd (App_TaskBall_body sw b))) <= 18)%nat.
Proof.
  assert (Hw : forall col row c,
            length (bytes_of (snd (Screen_WriteChar col row c))) =
            if off_screen col row then 0%nat else 9%nat).
  { intros col row c. unfold Screen_WriteChar.
    destruct (off_screen col row); [reflexivity |].
    cbn [snd]. unfold OSSchedLock, OSSchedUnlock, putU1.
    destruct (Screen_MoveCursor_eight_bytes col row) as (bs & -> & Hbs).
    cbn [app bytes_of]. rewrite bytes_of_app, bytes_of_puts.
    rewrite length_app, Hbs. reflexivity. }
  assert (Hlen : length (bytes_of (snd (App_TaskBall_body sw b))) =
    ((if off_screen (x b) (y b) then 0 else 9)
     + (if off_screen (x (tick sw b)) (y (tick sw b)) then 0 else 9))%nat).
  { rewrite App_TaskBall_body_trace. unfold OSTimeDlyHMSM.
    cbn [app bytes_of]. rewrite bytes_of_app, length_app, !Hw.
    reflexivity. }
  split; [exact Hlen |].
  rewrite Hlen.
  destruct (off_screen (x b) (y b));
    destruct (off_screen (x (tick sw b)) (y (tick sw b))); cbn; lia.
Qed.

Lemma UART_PrintNum_units_witness :
  exists b1, UART_PrintNum (-1) = [EvPut b1; EvPut 53].
Proof.
  destruct (UART_PrintNum_units (-1)) as (b1 & H & _).
  exists b1. exact H.
Defined.
